(** * streamlit_app.py: the bulk-send workflow and its template engine

    A shallow embedding of the three pieces of [streamlit_app.py] that carry
    logic: [personalize_template] (lines 122-128), [send_email] (lines 91-120)
    and the "Send Emails to Selected Leads" loop of [show_leads_email_tab]
    (lines 494-560).

    Python strings are [string], Python ints that count things are [N], a
    [datetime.date] is its proleptic ordinal in [Z], a dict whose iteration
    order matters is an association list.  The Streamlit session state and
    the outside world (clock, SMTP server) are explicit: the session is a
    record that is threaded through a small state-and-exception monad in
    which, as in Python, writes made before a [raise] stay made. *)

From Stdlib Require Import String Ascii List Bool Arith NArith ZArith Lia.
From Stdlib Require Import DecimalString.
Import ListNotations.

Local Open Scope string_scope.

(* ===================================================================== *)
(** * Python strings *)
(* ===================================================================== *)

Module PyStr.

(** ** [str.replace] *)

(** [old] occurs in [s]: some split of [s] has [old] in the middle. *)
Definition occurs (old s : string) : Prop :=
  exists a b, s = a ++ old ++ b.

(** [old in s], by trying every offset. *)
Fixpoint contains (old s : string) : bool :=
  match s with
  | "" => prefix old ""
  | String c s' => prefix old s || contains old s'
  end.

(** The occurrence of [old] after [a] is the first one of [a ++ old ++ b]. *)
Definition leftmost (old a b : string) : Prop :=
  forall a' b', a ++ old ++ b = a' ++ old ++ b' ->
                String.length a <= String.length a'.

(** The left-to-right scan of [str.replace] for a non-empty [old]: at a
    match, [new] is emitted and the scan resumes behind the match ([skip]
    counts the characters of the match still to pass), so the occurrences
    replaced are the leftmost non-overlapping ones. *)
Fixpoint replace_scan (old new : string) (skip : nat) (s : string) : string :=
  match s with
  | "" => ""
  | String c s' =>
      match skip with
      | S k => replace_scan old new k s'
      | O => if prefix old s
             then new ++ replace_scan old new (pred (String.length old)) s'
             else String c (replace_scan old new 0 s')
      end
  end.

(** With [old] empty, [str.replace] puts [new] before every character and
    at the end: ['ab'.replace('', '-') == '-a-b-']. *)
Fixpoint interleave (new s : string) : string :=
  match s with
  | "" => new
  | String c s' => new ++ String c (interleave new s')
  end.

(** [s.replace(old, new)]. *)
Definition replace (s old new : string) : string :=
  match old with
  | "" => interleave new s
  | _ => replace_scan old new 0 s
  end.

(** What "every literal occurrence of [old] is replaced by [new]" means,
    stated without reference to the scan: either [old] does not occur and
    the string is kept, or the string splits at the first occurrence and the
    rest is treated the same way. *)
Inductive replaced_all (old new : string) : string -> string -> Prop :=
| ra_keep s :
    ~ occurs old s -> replaced_all old new s s
| ra_subst a b r :
    leftmost old a b -> replaced_all old new b r ->
    replaced_all old new (a ++ old ++ b) (a ++ new ++ r).

End PyStr.

(* ===================================================================== *)
(** * The template engine: [personalize_template] *)
(* ===================================================================== *)

Module Template.

(** The values found in a lead: the scraper stores strings (lines 350-359),
    the data editor adds the boolean [Select] column (line 413). *)
Inductive pyval : Type :=
| PStr (s : string)
| PBool (b : bool).

(** [str(value)]. *)
Definition str (value : pyval) : string :=
  match value with
  | PStr s => s
  | PBool true => "True"
  | PBool false => "False"
  end.

(** [f"{{{{{key}}}}}"]: the key between two pairs of braces. *)
Definition placeholder (key : string) : string := "{{" ++ key ++ "}}".

(** A dict or a DataFrame row, in iteration order. *)
Definition lead_data : Type := list (string * pyval).

Definition keys (d : lead_data) : list string := map fst d.

(** Lines 122-128.  The loop variable [personalized] is the accumulator:
    each field rewrites the string the previous fields produced. *)
Fixpoint personalize_template (template : string) (d : lead_data) : string :=
  match d with
  | [] => template
  | (key, value) :: items =>
      personalize_template
        (PyStr.replace template (placeholder key) (str value)) items
  end.

(** The lead records the scraper produces (lines 350-359). *)
Record Lead : Type := mkLead {
  firstName : string;
  lastName : string;
  fullName : string;
  position : string;
  company : string;
  location : string;
  profileUrl : string;
  email : string
}.

(** A lead as stored in [scraped_leads]: the dict of line 350, in the order
    its keys are written. *)
Definition lead_dict (l : Lead) : lead_data :=
  [ ("firstName", PStr (firstName l)); ("lastName", PStr (lastName l));
    ("fullName", PStr (fullName l)); ("position", PStr (position l));
    ("company", PStr (company l)); ("location", PStr (location l));
    ("profileUrl", PStr (profileUrl l)); ("email", PStr (email l)) ].

(** A lead as the send loop sees it: a row of [selected_leads], that is the
    columns of the dict followed by the [Select] column, which is [True] on
    every selected row (lines 413, 472, 509). *)
Definition lead_row (l : Lead) : lead_data :=
  (lead_dict l ++ [ ("Select", PBool true) ])%list.

(** A name without braces, as the field names above are. *)
Fixpoint brace_free (s : string) : bool :=
  match s with
  | "" => true
  | String c s' =>
      negb (Ascii.eqb c "{") && negb (Ascii.eqb c "}") && brace_free s'
  end.

(** The contract of the template engine in the words of its specification:
    for every field, in turn, every literal occurrence of the field's
    placeholder is replaced by the field's string value. *)
Inductive rendered : lead_data -> string -> string -> Prop :=
| rendered_nil template :
    rendered [] template template
| rendered_field key value items template t1 t2 :
    PyStr.replaced_all (placeholder key) (str value) template t1 ->
    rendered items t1 t2 ->
    rendered ((key, value) :: items) template t2.

End Template.

(* ===================================================================== *)
(** * The session, the outside world and [send_email] *)
(* ===================================================================== *)

Module Mailer.
Import Template.

(** A [datetime.date], as [date.toordinal()]; [<] on dates is [<] here. *)
Definition date : Type := Z.
Bind Scope Z_scope with date.

(** [st.session_state.smtp_config] (lines 266-273). *)
Record SmtpConfig : Type := mkSmtpConfig {
  smtp_email : string;
  smtp_server : string;
  smtp_port : N;
  smtp_username : string;
  smtp_password : string;
  smtp_mode : string
}.

(** The message built by lines 103-108 together with the account it is
    handed to (lines 110-112). *)
Record envelope : Type := mkEnvelope {
  msg_to : string;
  msg_from : string;
  msg_subject : string;
  msg_body : string;
  msg_via : SmtpConfig
}.

(** The exceptions of the model: a missing attribute of the session state,
    and any [Exception] raised while the message is built and delivered
    (lines 103-114), carried with its [str(e)]. *)
Inductive exn : Type :=
| AttributeError (attr : string)
| SmtpError (text : string).

(** The double quote, as a one-character string. *)
Definition dquote : string := String "034"%char "".

(** [str(e)].  For a missing attribute the wording is Streamlit's own: the
    name between double quotes, then the hint and the link to its
    documentation. *)
Definition str_exn (e : exn) : string :=
  match e with
  | AttributeError attr =>
      "st.session_state has no attribute " ++ dquote ++ attr ++ dquote
      ++ ". Did you forget to initialize it? More info: "
      ++ "https://docs.streamlit.io/develop/concepts/architecture/session-state#initialization"
  | SmtpError text => text
  end.

(** What the outside world answers during one iteration of the send loop:
    the date and the wall-clock time read by [datetime.now()], and the
    behaviour of the SMTP session ([None]: lines 110-114 ran to the end;
    [Some text]: one of them raised an exception whose text is [text]). *)
Record tick : Type := mkTick {
  today : date;
  hms : string;
  smtp : envelope -> option string
}.

(** The part of [st.session_state] the workflow uses.  [email_sent_today],
    [last_email_date] and [scraper_logs] are written when the script is
    loaded (lines 41-48); [email_limit] and [smtp_config] are written by the
    Configuration tab only (lines 246, 266) and may be missing. *)
Record session_state : Type := mkSession {
  email_sent_today : N;
  last_email_date : date;
  email_limit : option N;
  smtp_config : option SmtpConfig;
  scraper_logs : list string
}.

(** The session together with what the run did to the outside world: the
    messages whose delivery was attempted, that is for which the [try] block
    of lines 102-114 was entered, oldest first, and the number of
    [time.sleep(1)] calls.  An attempt is in the [outbox] whether or not it
    went through: the connection, [starttls] or [login] of lines 110-112 can
    fail before [send_message] of line 113 is reached, and [smtp] tells. *)
Record world : Type := mkWorld {
  session : session_state;
  outbox : list envelope;
  slept : nat
}.

Definition set_session (f : session_state -> session_state) (w : world)
  : world :=
  mkWorld (f (session w)) (outbox w) (slept w).

Definition set_quota (n : N) (d : date) (s : session_state)
  : session_state :=
  mkSession n d (email_limit s) (smtp_config s) (scraper_logs s).

Definition set_logs (l : list string) (s : session_state) : session_state :=
  mkSession (email_sent_today s) (last_email_date s) (email_limit s)
            (smtp_config s) l.

(** ** Computations: state, and exceptions that keep the state *)

Inductive result (A : Type) : Type :=
| Ok (a : A)
| Raise (e : exn).
Arguments Ok {A} a.
Arguments Raise {A} e.

Definition M (A : Type) : Type := world -> result A * world.

Definition ret {A} (a : A) : M A := fun w => (Ok a, w).

Definition bind {A B} (c : M A) (k : A -> M B) : M B :=
  fun w => match c w with
           | (Ok a, w') => k a w'
           | (Raise e, w') => (Raise e, w')
           end.

Definition raise {A} (e : exn) : M A := fun w => (Raise e, w).

(** [try: c  except Exception as e: h e]. *)
Definition try_except {A} (c : M A) (h : exn -> M A) : M A :=
  fun w => match c w with
           | (Ok a, w') => (Ok a, w')
           | (Raise e, w') => h e w'
           end.

Declare Scope py_scope.
Delimit Scope py_scope with py.
Notation "x <- c ;; k" := (bind c (fun x => k))
  (at level 61, c at next level, right associativity) : py_scope.
Notation "c ;; k" := (bind c (fun _ => k))
  (at level 61, right associativity) : py_scope.
Local Open Scope py_scope.

(** Reading and writing attributes of [st.session_state]. *)
Definition read {A} (f : session_state -> A) : M A :=
  fun w => (Ok (f (session w)), w).

Definition write (f : session_state -> session_state) : M unit :=
  fun w => (Ok tt, set_session f w).

Definition attr {A} (name : string) (f : session_state -> option A) : M A :=
  fun w => match f (session w) with
           | Some a => ret a w
           | None => raise (AttributeError name) w
           end.

(** ** [send_email], lines 91-120 *)

(** Lines 94-97: a date later than the stored one starts a new day. *)
Definition roll_over (current_date : date) (s : session_state)
  : session_state :=
  if (last_email_date s <? current_date)%Z
  then set_quota 0 current_date s
  else s.

(** Lines 103-114: the attempt to build the message and deliver it through
    the server of the configuration.  The attempt is noted in the [outbox]
    before the server answers; whatever is raised on the way (by the
    connection, [starttls], [login], [send_message] or [quit]) surfaces as
    an exception. *)
Definition deliver (t : tick) (e : envelope) : M unit :=
  fun w =>
    let w' := mkWorld (session w) (outbox w ++ [e]) (slept w) in
    match smtp t e with
    | None => ret tt w'
    | Some text => raise (SmtpError text) w'
    end.

(** [str(n)] for a non-negative int. *)
Definition decimal (n : N) : string := NilZero.string_of_uint (N.to_uint n).

Definition send_email (t : tick) (recipient subject body : string)
    (cfg : SmtpConfig) : M (bool * string) :=
  let current_date := today t in
  write (roll_over current_date) ;;
  sent <- read email_sent_today ;;
  limit <- attr "email_limit" email_limit ;;
  if (limit <=? sent)%N then ret (false, "Daily email limit reached")
  else
    try_except
      (deliver t (mkEnvelope recipient (smtp_email cfg) subject body cfg) ;;
       write (fun s => set_quota (email_sent_today s + 1)
                                 (last_email_date s) s) ;;
       sent' <- read email_sent_today ;;
       limit' <- attr "email_limit" email_limit ;;
       ret (true, "Email sent to " ++ recipient ++ ". (" ++ decimal sent'
                  ++ "/" ++ decimal limit' ++ " sent today)"))
      (fun e => ret (false, "Failed to send email: " ++ str_exn e)).

(** ** The send loop of [show_leads_email_tab], lines 494-560 *)

(** The radio button of line 478. *)
Inductive send_mode : Type :=
| SendNow
| TestMode.

(** Line 85, with the clock reading of the iteration. *)
Definition format_log_entry (t : tick) (log : string) : string :=
  "[" ++ hms t ++ "] " ++ log.

(** [deque(maxlen=100).append]: a full deque drops its oldest entry. *)
Definition deque_append (x : string) (q : list string) : list string :=
  let q' := (q ++ [x])%list in
  skipn (List.length q' - 100)%nat q'.

(** Lines 87-89. *)
Definition add_log (t : tick) (message : string) : M unit :=
  write (fun s => set_logs (deque_append (format_log_entry t message)
                                         (scraper_logs s)) s).

(** [time.sleep(1)]. *)
Definition sleep : M unit :=
  fun w => (Ok tt, mkWorld (session w) (outbox w) (S (slept w))).

(** What one iteration of the loop did: [send_email] returned, or the
    handler of line 548 caught an exception.  The source keeps counters and
    log lines only; the list of attempts is kept here to speak about single
    leads. *)
Inductive attempt : Type :=
| Returned (recipient : string) (succeeded : bool) (message : string)
| Errored (e : exn).

(** The locals [success_count] and [failure_count], and the attempts in
    the order of the selection. *)
Record tally : Type := mkTally {
  success_count : N;
  failure_count : N;
  results : list attempt
}.

Definition tally0 : tally := mkTally 0 0 [].

(** Lines 514-523: recipient, subject and body of the message for a lead. *)
Definition prepare (mode : send_mode) (email_subject email_template : string)
    (cfg : SmtpConfig) (lead : Lead) : string * string * string :=
  let personalized_subject := personalize_template email_subject (lead_row lead) in
  let personalized_body := personalize_template email_template (lead_row lead) in
  match mode with
  | TestMode =>
      (smtp_email cfg,
       "[TEST] " ++ personalized_subject ++ " (to: " ++ email lead ++ ")",
       personalized_body)
  | SendNow => (email lead, personalized_subject, personalized_body)
  end.

(** The message whose delivery is attempted for a lead, when one is. *)
Definition dispatched (mode : send_mode) (email_subject email_template : string)
    (cfg : SmtpConfig) (lead : Lead) : envelope :=
  let '(recipient, subject, body) :=
    prepare mode email_subject email_template cfg lead in
  mkEnvelope recipient (smtp_email cfg) subject body cfg.

(** Lines 510-552: iteration [i] of [n].  Nothing after the call of
    [send_email] can raise, so the handler sees the counters as they were
    when the iteration began. *)
Definition send_one (mode : send_mode) (email_subject email_template : string)
    (cfg : SmtpConfig) (n i : nat) (t : tick) (lead : Lead) (acc : tally)
  : M tally :=
  try_except
    (let '(recipient, subject, body) :=
       prepare mode email_subject email_template cfg lead in
     r <- send_email t recipient subject body cfg ;;
     let '(success, message) := r in
     acc' <- (if success
              then add_log t ("Email sent successfully to " ++ recipient) ;;
                   ret (mkTally (success_count acc + 1) (failure_count acc)
                          (results acc ++ [Returned recipient true message]))
              else add_log t ("Failed to send email to " ++ recipient
                              ++ ": " ++ message) ;;
                   ret (mkTally (success_count acc) (failure_count acc + 1)
                          (results acc ++ [Returned recipient false message]))) ;;
     (if (i <? n - 1)%nat then sleep else ret tt) ;;
     ret acc')
    (fun e =>
       add_log t ("Error sending email: " ++ str_exn e) ;;
       sleep ;;
       ret (mkTally (success_count acc) (failure_count acc + 1)
              (results acc ++ [Errored e]))).

(** Line 509: the leads in the order of the selection; [env i] is the
    outside world during iteration [i]. *)
Fixpoint send_loop (env : nat -> tick) (mode : send_mode)
    (email_subject email_template : string) (cfg : SmtpConfig)
    (n i : nat) (leads : list Lead) (acc : tally) : M tally :=
  match leads with
  | [] => ret acc
  | lead :: rest =>
      acc' <- send_one mode email_subject email_template cfg n i (env i)
                       lead acc ;;
      send_loop env mode email_subject email_template cfg n (S i) rest acc'
  end.

(** Lines 555-560. *)
Inductive banner : Type :=
| AllSent (sent : N)
| SomeFailed (sent failed : N)
| NoneSent.

Definition final_status (acc : tally) : banner :=
  if (0 <? success_count acc)%N && (failure_count acc =? 0)%N
  then AllSent (success_count acc)
  else if (0 <? success_count acc)%N && (0 <? failure_count acc)%N
       then SomeFailed (success_count acc) (failure_count acc)
       else NoneSent.

(** The loop over a whole selection, from fresh counters (lines 506-552). *)
Definition send_batch (env : nat -> tick) (mode : send_mode)
    (email_subject email_template : string) (cfg : SmtpConfig)
    (leads : list Lead) : M tally :=
  send_loop env mode email_subject email_template cfg
            (List.length leads) 0 leads tally0.

(** The button of line 494: without a stored configuration nothing is
    attempted (lines 495-497). *)
Definition send_selected (env : nat -> tick) (mode : send_mode)
    (email_subject email_template : string) (leads : list Lead)
  : M (option (tally * banner)) :=
  known <- read smtp_config ;;
  match known with
  | None => ret None
  | Some cfg =>
      acc <- send_batch env mode email_subject email_template cfg leads ;;
      ret (Some (acc, final_status acc))
  end.

(** ** Vocabulary of the statements *)

(** The session as the limit check of line 99 finds it. *)
Definition rolled (t : tick) (w : world) : session_state :=
  roll_over (today t) (session w).

Definition confirmation (recipient : string) (sent limit : N) : string :=
  "Email sent to " ++ recipient ++ ". (" ++ decimal sent ++ "/"
  ++ decimal limit ++ " sent today)".

(** Whether the iteration got as far as a delivery attempt: it returned
    success, or the failure of a delivery (line 120), not the refusal of
    the limit check (line 100) and not an exception before it. *)
Definition tried_delivery (a : attempt) : bool :=
  match a with
  | Returned _ ok message => ok || prefix "Failed to send email: " message
  | Errored _ => false
  end.

(** The leads whose iteration got as far as a delivery attempt, in the
    order of the selection. *)
Fixpoint tried_leads (leads : list Lead) (attempts : list attempt)
  : list Lead :=
  match leads, attempts with
  | lead :: leads', a :: attempts' =>
      if tried_delivery a then lead :: tried_leads leads' attempts'
      else tried_leads leads' attempts'
  | _, _ => []
  end.

(** The attempt of a lead names the recipient of the lead's message. *)
Definition names_recipient (recipient_of : Lead -> string) (lead : Lead)
    (a : attempt) : Prop :=
  match a with
  | Returned recipient _ _ => recipient = recipient_of lead
  | Errored _ => True
  end.

(** Whether an attempt ended in a delivery. *)
Definition succeeded (a : attempt) : bool :=
  match a with
  | Returned _ ok _ => ok
  | Errored _ => false
  end.

(** The four ways a call can end, as one case analysis. *)
Inductive outcome (t : tick) (recipient subject body : string)
    (cfg : SmtpConfig) (w : world) : result (bool * string) * world -> Prop :=
| out_no_limit :
    email_limit (session w) = None ->
    outcome t recipient subject body cfg w
      (Raise (AttributeError "email_limit"),
       mkWorld (rolled t w) (outbox w) (slept w))
| out_refused limit :
    email_limit (session w) = Some limit ->
    (limit <= email_sent_today (rolled t w))%N ->
    outcome t recipient subject body cfg w
      (Ok (false, "Daily email limit reached"),
       mkWorld (rolled t w) (outbox w) (slept w))
| out_failed limit text :
    email_limit (session w) = Some limit ->
    (email_sent_today (rolled t w) < limit)%N ->
    smtp t (mkEnvelope recipient (smtp_email cfg) subject body cfg)
    = Some text ->
    outcome t recipient subject body cfg w
      (Ok (false, "Failed to send email: " ++ text),
       mkWorld (rolled t w)
         (outbox w ++ [mkEnvelope recipient (smtp_email cfg) subject body cfg])
         (slept w))
| out_delivered limit :
    email_limit (session w) = Some limit ->
    (email_sent_today (rolled t w) < limit)%N ->
    smtp t (mkEnvelope recipient (smtp_email cfg) subject body cfg) = None ->
    outcome t recipient subject body cfg w
      (Ok (true, confirmation recipient (email_sent_today (rolled t w) + 1)
                              limit),
       mkWorld (set_quota (email_sent_today (rolled t w) + 1)
                          (last_email_date (rolled t w)) (rolled t w))
         (outbox w ++ [mkEnvelope recipient (smtp_email cfg) subject body cfg])
         (slept w)).

(** The counters and the attempts after an iteration whose call of
    [send_email] ended with [r]. *)
Definition recorded (acc : tally) (recipient : string)
    (r : result (bool * string)) : tally :=
  match r with
  | Ok (true, message) =>
      mkTally (success_count acc + 1) (failure_count acc)
              (results acc ++ [Returned recipient true message])
  | Ok (false, message) =>
      mkTally (success_count acc) (failure_count acc + 1)
              (results acc ++ [Returned recipient false message])
  | Raise e =>
      mkTally (success_count acc) (failure_count acc + 1)
              (results acc ++ [Errored e])
  end.

(** Two worlds with the same quota, configuration and outbox: logging and
    sleeping do not tell them apart. *)
Definition same_mail (a b : world) : Prop :=
  email_sent_today (session a) = email_sent_today (session b) /\
  last_email_date (session a) = last_email_date (session b) /\
  email_limit (session a) = email_limit (session b) /\
  outbox a = outbox b.

End Mailer.

(* ===================================================================== *)
(** * Sample data *)
(* ===================================================================== *)

Module Sample.
Import Template Mailer.

Definition jane : Lead :=
  mkLead "Jane" "Smith" "Jane Smith" "CTO" "Acme Inc" "Berlin"
         "https://www.linkedin.com/in/jane-smith-12345"
         "jane.smith@acmeinc.com".

Definition john : Lead :=
  mkLead "John" "Moore" "John Moore" "CFO" "TechGiant" "Paris"
         "https://www.linkedin.com/in/john-moore-54321"
         "john.moore@techgiant.com".

Definition emma : Lead :=
  mkLead "Emma" "Davis" "Emma Davis" "CEO" "NextGen Tech" "London"
         "https://www.linkedin.com/in/emma-davis-33333"
         "emma.davis@nextgentech.com".

Definition account : SmtpConfig :=
  mkSmtpConfig "me@x.com" "smtp.gmail.com" 587 "me@x.com" "app-password"
               "Immediate Send".

(** A server that accepts every message, and one that accepts none. *)
Definition accepting (d : date) : tick :=
  mkTick d "09:00:00" (fun _ => None).

Definition refusing (d : date) : tick :=
  mkTick d "09:00:00" (fun _ => Some "Connection refused").

(** A server that fails for the lead at index [k] only. *)
Definition failing_at (k : nat) (d : date) (i : nat) : tick :=
  if (i =? k)%nat then refusing d else accepting d.

(** A session with the given quota and nothing sent, logged or slept. *)
Definition at_quota (sent : N) (last : date) (limit : N) : world :=
  mkWorld (mkSession sent last (Some limit) (Some account) []) [] 0.

(** The same before the Configuration tab has stored a limit. *)
Definition unconfigured (sent : N) (last : date) : world :=
  mkWorld (mkSession sent last None (Some account) []) [] 0.

Definition subject_line : string := "Connecting with {{company}}".

Definition body_text : string :=
  "<p>Hello {{firstName}},</p><p>I noticed your profile as {{position}} at {{company}}.</p>".

End Sample.

(* ===================================================================== *)
(** * Templates seen as text and placeholders *)
(* ===================================================================== *)

Module Shape.
Import Template.

(** A template written as a sequence of literal text and placeholders. *)
Inductive piece : Type :=
| Text (s : string)
| Hole (name : string).

Fixpoint flatten (ps : list piece) : string :=
  match ps with
  | [] => ""
  | Text s :: rest => s ++ flatten rest
  | Hole name :: rest => placeholder name ++ flatten rest
  end.

(** A string without an opening brace. *)
Fixpoint no_open (s : string) : bool :=
  match s with
  | "" => true
  | String c s' => negb (Ascii.eqb c "{") && no_open s'
  end.

(** Literal text has no opening brace, a placeholder name no brace. *)
Definition shaped (p : piece) : bool :=
  match p with
  | Text s => no_open s
  | Hole name => brace_free name
  end.

(** [lead_data[key]], when the key is there. *)
Fixpoint field (d : lead_data) (key : string) : option pyval :=
  match d with
  | [] => None
  | (k, v) :: rest => if String.eqb k key then Some v else field rest key
  end.

(** One field put into the placeholders that carry its name. *)
Definition fill_one (key : string) (value : pyval) (p : piece) : piece :=
  match p with
  | Text s => Text s
  | Hole name => if String.eqb key name then Text (str value) else Hole name
  end.

(** A piece with the value of its field put in, if the lead has the field. *)
Definition filled (d : lead_data) (p : piece) : piece :=
  match p with
  | Text s => Text s
  | Hole name =>
      match field d name with
      | Some v => Text (str v)
      | None => Hole name
      end
  end.

(** All placeholders filled at once, each from the lead as it is. *)
Definition substitute (d : lead_data) (ps : list piece) : string :=
  flatten (map (filled d) ps).

(** Line 457, the default subject, and lines 433-446, the default body. *)
Definition default_subject : list piece :=
  [Text "Connecting with "; Hole "company"].

Definition nl : string := String (ascii_of_nat 10) "".

Definition default_template : list piece :=
  [ Text (nl ++ "    <p>Hello "); Hole "firstName";
    Text (",</p>" ++ nl ++ "    " ++ nl
          ++ "    <p>I noticed your profile as ");
    Hole "position"; Text " at "; Hole "company";
    Text (" and I'm impressed with your background.</p>" ++ nl ++ "    " ++ nl
          ++ "    <p>I'd love to connect with you to discuss how our services might help ");
    Hole "company";
    Text (" with [Your Value Proposition].</p>" ++ nl ++ "    " ++ nl
          ++ "    <p>Would you be available for a quick 15-minute call this week?</p>"
          ++ nl ++ "    " ++ nl
          ++ "    <p>Best regards,<br>" ++ nl
          ++ "    [Your Name]<br>" ++ nl
          ++ "    [Your Company]<br>" ++ nl
          ++ "    [Your Contact Info]</p>" ++ nl ++ "    ") ].

End Shape.

(* ===================================================================== *)
(** * The session outside the send loop *)
(* ===================================================================== *)

Module Session.
Import Template Mailer.

(** Line 246: the Configuration tab stores the limit on every run. *)
Definition configure_limit (limit : N) (s : session_state) : session_state :=
  mkSession (email_sent_today s) (last_email_date s) (Some limit)
            (smtp_config s) (scraper_logs s).

(** Lines 266-273: the Start button stores the SMTP settings. *)
Definition store_smtp_config (cfg : SmtpConfig) (s : session_state)
  : session_state :=
  mkSession (email_sent_today s) (last_email_date s) (email_limit s)
            (Some cfg) (scraper_logs s).

(** Lines 568-576, the "Reset Session" button: every key but the login
    keys is deleted, then the log, the counter and the date stamp are set
    anew; the limit and the SMTP settings are gone until they are stored
    again. *)
Definition reset_session (current_date : date) (s : session_state)
  : session_state :=
  mkSession 0 current_date None None [].

(** The logs the loop writes for one iteration (lines 537, 540, 550). *)
Definition log_message (recipient : string) (r : result (bool * string))
  : string :=
  match r with
  | Ok (true, _) => "Email sent successfully to " ++ recipient
  | Ok (false, message) =>
      "Failed to send email to " ++ recipient ++ ": " ++ message
  | Raise e => "Error sending email: " ++ str_exn e
  end.

(** How many of the attempts ended in a delivery. *)
Definition delivered_count (l : list attempt) : N :=
  N.of_nat (List.length (filter succeeded l)).

(** The [time.sleep(1)] calls of iteration [i] of [n] (lines 545, 552). *)
Definition pauses (n i : nat) (r : result (bool * string)) : nat :=
  match r with
  | Ok _ => if (i <? n - 1)%nat then 1 else 0
  | Raise _ => 1
  end.

End Session.

(* ===================================================================== *)
(** * The simulated scraper, lines 312-367 *)
(* ===================================================================== *)

Module Scraper.
Import Template Mailer.

(** [str.lower] on ASCII text, which is what the scraper applies it to. *)
Definition lower_char (c : ascii) : ascii :=
  let n := nat_of_ascii c in
  if ((65 <=? n) && (n <=? 90))%nat then ascii_of_nat (n + 32) else c.

Fixpoint lower (s : string) : string :=
  match s with
  | "" => ""
  | String c s' => String (lower_char c) (lower s')
  end.

(** Lines 327-332, 343-344. *)
Definition first_names : list string :=
  ["John"; "Jane"; "Michael"; "Sarah"; "David"; "Emma"; "Robert"; "Lisa"].

Definition last_names : list string :=
  ["Smith"; "Johnson"; "Brown"; "Taylor"; "Miller"; "Davis"; "Wilson";
   "Moore"].

Definition sample_companies : list string :=
  ["Acme Inc"; "TechGiant"; "Digital Solutions"; "InnovateCorp";
   "Global Systems"; "NextGen Tech"; "Future Dynamics"; "Elite Enterprises"].

Definition sample_positions : list string :=
  ["CEO"; "CTO"; "Marketing Director"; "Sales Manager"; "VP of Operations";
   "Product Manager"; "Director of Engineering"; "CFO"].

Definition sample_locations : list string :=
  ["New York"; "San Francisco"; "London"; "Berlin"; "Singapore"; "Sydney";
   "Toronto"; "Paris"].

(** [random.choice(l)] and [random.randint(lo, hi)] for a raw draw [r]. *)
Definition choice (r : nat) (l : list string) : string :=
  nth (r mod List.length l) l "".

Definition randint (lo hi r : N) : N := (lo + r mod (hi - lo + 1))%N.

(** The six draws one lead takes, in the order the source takes them. *)
Record draws : Type := mkDraws {
  draw_first : nat;
  draw_last : nat;
  draw_company : nat;
  draw_position : nat;
  draw_location : nat;
  draw_number : N
}.

(** Lines 343-359. *)
Definition make_lead (r : draws) : Lead :=
  let first_name := choice (draw_first r) first_names in
  let last_name := choice (draw_last r) last_names in
  let company := choice (draw_company r) sample_companies in
  let position := choice (draw_position r) sample_positions in
  let location := choice (draw_location r) sample_locations in
  let profile_url :=
    "https://www.linkedin.com/in/" ++ lower first_name ++ "-"
    ++ lower last_name ++ "-"
    ++ decimal (randint 10000 99999 (draw_number r)) in
  mkLead first_name last_name (first_name ++ " " ++ last_name) position
         company location profile_url
         (lower first_name ++ "." ++ lower last_name ++ "@"
          ++ PyStr.replace (lower company) " " "" ++ ".com").

(** Lines 336-363: the [while] loop.  [rng j] holds the draws of the lead
    generated [j]-th; the log lines are the arguments of [add_log]; the
    pauses of lines 318-324 and 363 are left out.  Every turn adds at least
    one lead, so [fuel] turns are enough for [fuel] leads. *)
Fixpoint scrape_loop (fuel : nat) (rng : nat -> draws) (total_leads : nat)
    (scraped : nat) (leads : list Lead) (log : list string)
  : option (list Lead * list string) :=
  if (scraped <? total_leads)%nat then
    match fuel with
    | O => None
    | S fuel' =>
        let batch_size := Nat.min 5 (total_leads - scraped) in
        let scraped' := scraped + batch_size in
        let leads' :=
          (leads
           ++ map (fun i => make_lead (rng (List.length leads + i)))
                  (seq 0 batch_size))%list in
        scrape_loop fuel' rng total_leads scraped' leads'
          (log ++ [("Scraped " ++ decimal (N.of_nat scraped') ++ "/"
                    ++ decimal (N.of_nat total_leads) ++ " leads...")%string])%list
    end
  else Some (leads, log).

(** Lines 312-367: the leads the body of the function computes for
    [scraped_leads] and the lines it passes to [add_log], for a positive or
    zero [lead_count].  This is the computation only: line 301 starts the
    function in a thread of its own, where the session state of the script
    is not at hand, so whether these leads get stored is not said here. *)
Definition simulate_scraping (rng : nat -> draws) (lead_count : nat)
  : option (list Lead * list string) :=
  match
    scrape_loop lead_count rng lead_count 0 []
      [ "Initializing LinkedIn Sales Navigator scraper...";
        "Authenticating with LinkedIn...";
        "Starting search query..." ]
  with
  | Some (leads, log) =>
      Some (leads,
            (log ++ [("Lead generation complete! "
                      ++ decimal (N.of_nat lead_count)
                      ++ " leads found.")%string])%list)
  | None => None
  end.

(** Draws that walk through the lists, for examples. *)
Definition sample_draws (j : nat) : draws :=
  mkDraws j (j + 1) j (j + 2) (j + 3) (N.of_nat (7 * j)).

End Scraper.

(* ===================================================================== *)
(** * Facts about [str.replace] *)
(* ===================================================================== *)

Module PyStrFacts.
Import PyStr.


Lemma app_nil_r (s : string) : s ++ "" = s.
Proof. induction s as [|c s IH]; simpl; [reflexivity | now rewrite IH]. Qed.

Lemma app_assoc (s t u : string) : (s ++ t) ++ u = s ++ t ++ u.
Proof. induction s as [|c s IH]; simpl; [reflexivity | now rewrite IH]. Qed.

Lemma length_app (s t : string) :
  String.length (s ++ t) = String.length s + String.length t.
Proof. induction s as [|c s IH]; simpl; [reflexivity | now rewrite IH]. Qed.

Lemma length_zero (s : string) : String.length s = 0 -> s = "".
Proof. destruct s; simpl; [reflexivity | discriminate]. Qed.

Lemma app_inv_head (s t u : string) : s ++ t = s ++ u -> t = u.
Proof.
  induction s as [|c s IH]; simpl; intros H; [exact H | ].
  injection H as H. now apply IH.
Qed.

(** [prefix p s] is [s.startswith(p)]. *)
Lemma prefix_app (p r : string) : prefix p (p ++ r) = true.
Proof.
  induction p as [|c p IH]; simpl.
  - now destruct r.
  - destruct (ascii_dec c c) as [_|E]; [exact IH | now elim E].
Qed.

Lemma prefix_split (p s : string) :
  prefix p s = true -> exists r, s = p ++ r.
Proof.
  revert s; induction p as [|c p IH]; intros s H.
  - now exists s.
  - destruct s as [|d s]; simpl in H; [discriminate | ].
    destruct (ascii_dec c d) as [->|_]; [ | discriminate].
    destruct (IH _ H) as [r ->]. now exists r.
Qed.

Lemma prefix_iff (p s : string) :
  prefix p s = true <-> exists r, s = p ++ r.
Proof.
  split; [apply prefix_split | intros [r ->]; apply prefix_app].
Qed.

Lemma prefix_app_l (p s u : string) :
  prefix p s = true -> prefix p (s ++ u) = true.
Proof.
  intros H. destruct (prefix_split _ _ H) as [r ->].
  rewrite app_assoc. apply prefix_app.
Qed.

Lemma app_eq_nil (s t : string) : s ++ t = "" -> s = "" /\ t = "".
Proof. destruct s; simpl; [auto | discriminate]. Qed.

(** Two splits of one string at the same offset are the same split. *)
Lemma app_inj_length (a a' x y : string) :
  a ++ x = a' ++ y -> String.length a = String.length a' ->
  a = a' /\ x = y.
Proof.
  revert a'; induction a as [|c a IH]; intros [|c' a'] H L;
    simpl in *; try discriminate.
  - auto.
  - injection H as -> H. injection L as L.
    destruct (IH _ H L) as [-> ->]. auto.
Qed.

(** Of two prefixes of one string the shorter is a prefix of the longer. *)
Lemma app_eq_app (x y p r : string) :
  x ++ y = p ++ r ->
  (exists x', x = p ++ x' /\ r = x' ++ y) \/
  (exists q, q <> "" /\ p = x ++ q /\ y = q ++ r).
Proof.
  revert p; induction x as [|c x IH]; intros p H; simpl in H.
  - destruct p as [|d p].
    + left. exists "". simpl in *. auto.
    + right. exists (String d p). repeat split; [discriminate | exact H].
  - destruct p as [|d p]; simpl in H.
    + left. exists (String c x). subst r. auto.
    + injection H as -> H. destruct (IH _ H) as [[x' [-> ->]]|[q [Q [-> ->]]]].
      * left. exists x'. auto.
      * right. exists q. auto.
Qed.

(** [contains] decides [occurs]. *)
Lemma contains_occurs (old s : string) :
  contains old s = true <-> occurs old s.
Proof.
  split.
  - induction s as [|c s IH]; cbn [contains]; intros H.
    + apply prefix_split in H as [r E]. exists "", r. exact E.
    + apply orb_true_iff in H as [H|H].
      * apply prefix_split in H as [r E]. exists "", r. exact E.
      * destruct (IH H) as [a [b E]]. exists (String c a), b.
        simpl. now rewrite E.
  - intros [a [b E]]. subst s. induction a as [|c a IH].
    + simpl. destruct (old ++ b) eqn:E; cbn [contains].
      * apply app_eq_nil in E as [-> _]. reflexivity.
      * rewrite <- E, prefix_app. reflexivity.
    + change (String c a ++ old ++ b) with (String c (a ++ old ++ b)).
      cbn [contains]. rewrite IH. apply orb_true_r.
Qed.

Lemma not_contains_not_occurs (old s : string) :
  contains old s = false -> ~ occurs old s.
Proof.
  intros H O. apply contains_occurs in O. congruence.
Qed.

(** ** The scan *)

Lemma scan_skip (old new p b : string) :
  replace_scan old new (String.length p) (p ++ b) = replace_scan old new 0 b.
Proof. induction p as [|c p IH]; simpl; [reflexivity | exact IH]. Qed.

Lemma scan_hit (old new b : string) :
  old <> "" ->
  replace_scan old new 0 (old ++ b) = new ++ replace_scan old new 0 b.
Proof.
  intros H. pose proof (prefix_app old b) as P.
  destruct old as [|c o]; [congruence | ].
  change (String c o ++ b) with (String c (o ++ b)) in *.
  cbn [replace_scan]. rewrite P. cbn [String.length pred].
  now rewrite scan_skip.
Qed.

Section Scan.
Variables old new : string.
Hypothesis old_nonempty : old <> "".

Lemma nonempty_length : 1 <= String.length old.
Proof. destruct old; simpl; [congruence | lia]. Qed.

Lemma scan_miss (c : ascii) (s : string) :
  prefix old (String c s) = false ->
  replace_scan old new 0 (String c s) = String c (replace_scan old new 0 s).
Proof. intros P. cbn [replace_scan]. now rewrite P. Qed.

Lemma not_occurs_empty : ~ occurs old "".
Proof.
  intros [a [b H]]. symmetry in H.
  apply app_eq_nil in H as [_ H]. apply app_eq_nil in H as [H _]. auto.
Qed.

Lemma replaced_all_cons (c : ascii) (s r : string) :
  prefix old (String c s) = false ->
  replaced_all old new s r ->
  replaced_all old new (String c s) (String c r).
Proof.
  intros P H. destruct H as [s N | a b r L R].
  - apply ra_keep. intros [[|d a] [b E]]; simpl in E.
    + rewrite E, prefix_app in P. discriminate.
    + injection E as -> E. apply N. now exists a, b.
  - apply (ra_subst old new (String c a) b r); [ | exact R].
    intros [|d a'] b' E; simpl in E.
    + rewrite E, prefix_app in P. discriminate.
    + injection E as -> E. simpl. apply le_n_S. exact (L _ _ E).
Qed.

Lemma replace_scan_spec (n : nat) (s : string) :
  String.length s <= n ->
  replaced_all old new s (replace_scan old new 0 s).
Proof.
  revert s; induction n as [|n IH]; intros s L.
  - rewrite (length_zero s) by lia. apply ra_keep, not_occurs_empty.
  - destruct s as [|c s]; [apply ra_keep, not_occurs_empty | ].
    destruct (prefix old (String c s)) eqn:P.
    + destruct (prefix_split _ _ P) as [b E]. rewrite E, scan_hit by assumption.
      apply (ra_subst old new "" b).
      * intros a' b' _. simpl. lia.
      * apply IH. rewrite E, length_app in L.
        pose proof nonempty_length. lia.
    + rewrite scan_miss by exact P. apply replaced_all_cons; [exact P | ].
      apply IH. simpl in L. lia.
Qed.

(** The relation has one result only: it defines a function. *)
Lemma replaced_all_functional (s r1 r2 : string) :
  replaced_all old new s r1 -> replaced_all old new s r2 -> r1 = r2.
Proof.
  intros H1; revert r2.
  induction H1 as [s N | a b r L R IH]; intros r2 H2.
  - inversion H2 as [s' N' | a' b' r' L' R' E]; subst; [reflexivity | ].
    elim N. now exists a', b'.
  - inversion H2 as [s' N' E1 E2 | a' b' r' L' R' E]; subst.
    + elim N'. now exists a, b.
    + pose proof (L _ _ (eq_sym E)) as La. pose proof (L' _ _ E) as Lb.
      destruct (app_inj_length _ _ _ _ E) as [Ea Eb]; [lia | ].
      apply app_inv_head in Eb. subst a' b'.
      now rewrite (IH _ R').
Qed.

End Scan.

(** Matches are taken from the left and do not overlap. *)
Example replace_leftmost :
  replace "aaa" "aa" "b" = "ba" /\
  replace "abcabc" "bc" "" = "aa" /\
  replace "ab" "" "-" = "-a-b-" /\
  replace "" "" "-" = "-".
Proof. repeat split. Qed.

(** For a non-empty [old], [s.replace(old, new)] replaces every occurrence. *)
Lemma replace_spec (s old new : string) :
  old <> "" -> replaced_all old new s (replace s old new).
Proof.
  intros H. destruct old as [|c o] eqn:E; [congruence | ].
  unfold replace. rewrite <- E in *.
  now apply (replace_scan_spec old new H (String.length s)).
Qed.

Lemma replace_absent (s old new : string) :
  old <> "" -> ~ occurs old s -> replace s old new = s.
Proof.
  intros H N.
  apply (replaced_all_functional old new s); [apply replace_spec, H | ].
  now apply ra_keep.
Qed.

(** ** Scanning a concatenation *)

(** When no match begins in [a] and runs into [u], the scan of [a ++ u] is
    the scan of [a] followed by the scan of [u]. *)
Lemma scan_app (old new u : string) (n : nat) (a : string) :
  old <> "" ->
  String.length a <= n ->
  (forall a1 a2, a = a1 ++ a2 -> a2 <> "" ->
                 prefix old (a2 ++ u) = true -> prefix old a2 = true) ->
  replace_scan old new 0 (a ++ u)
  = replace_scan old new 0 a ++ replace_scan old new 0 u.
Proof.
  intros O. revert a; induction n as [|n IH]; intros a L H.
  - now rewrite (length_zero a) by lia.
  - destruct a as [|c a]; [reflexivity | ].
    destruct (prefix old (String c a ++ u)) eqn:P.
    + assert (Pa : prefix old (String c a) = true).
      { apply (H "" (String c a)); [reflexivity | discriminate | exact P]. }
      destruct (prefix_split _ _ Pa) as [a3 E]. rewrite E.
      rewrite app_assoc, !scan_hit, app_assoc by exact O. f_equal.
      apply IH.
      * rewrite E, length_app in L.
        pose proof (nonempty_length old O). lia.
      * intros a1 a2 E' N P'. apply (H (old ++ a1) a2); auto.
        now rewrite E, E', app_assoc.
    + assert (Pa : prefix old (String c a) = false).
      { destruct (prefix old (String c a)) eqn:Q; [ | reflexivity].
        now rewrite (prefix_app_l _ _ u Q) in P. }
      change (String c a ++ u) with (String c (a ++ u)) in *.
      rewrite !scan_miss by assumption. simpl. f_equal.
      apply IH; [simpl in L; lia | ].
      intros a1 a2 E' N P'. apply (H (String c a1) a2); auto.
      now rewrite E'.
Qed.

(** A stretch [p] at no position of which a match begins is copied. *)
Lemma scan_barrier (old new b p : string) :
  (forall p1 p2, p = p1 ++ p2 -> p2 <> "" -> prefix old (p2 ++ b) = false) ->
  replace_scan old new 0 (p ++ b) = p ++ replace_scan old new 0 b.
Proof.
  induction p as [|c p IH]; intros H; [reflexivity | ].
  change (String c p ++ b) with (String c (p ++ b)).
  rewrite scan_miss.
  - simpl. f_equal. apply IH. intros p1 p2 E N.
    apply (H (String c p1) p2); [now rewrite E | exact N].
  - apply (H "" (String c p)); [reflexivity | discriminate].
Qed.

End PyStrFacts.

(* ===================================================================== *)
(** * The template engine meets its contract *)
(* ===================================================================== *)

Module TemplateFacts.
Import PyStr PyStrFacts Template.

Lemma placeholder_nonempty (key : string) : placeholder key <> "".
Proof. discriminate. Qed.

Lemma placeholder_unfold (key : string) :
  placeholder key = String "{" (String "{" (key ++ "}}")).
Proof. reflexivity. Qed.

Lemma replace_placeholder (s key new : string) :
  replace s (placeholder key) new = replace_scan (placeholder key) new 0 s.
Proof. reflexivity. Qed.

(** ** Names without braces *)

Lemma brace_free_cons (c : ascii) (s : string) :
  brace_free (String c s) = true ->
  c <> "{"%char /\ c <> "}"%char /\ brace_free s = true.
Proof.
  simpl. rewrite !andb_true_iff, !negb_true_iff, !Ascii.eqb_neq. tauto.
Qed.

(** An opening brace found behind a brace-free name lies behind the name. *)
Lemma brace_free_open (k t y z : string) :
  brace_free k = true ->
  k ++ t = y ++ String "{" z ->
  exists y', y = k ++ y' /\ t = y' ++ String "{" z.
Proof.
  revert y; induction k as [|c k IH]; intros y B E.
  - now exists y.
  - apply brace_free_cons in B as [Bo [_ B]].
    destruct y as [|d y]; simpl in E; injection E as -> E; [congruence | ].
    destruct (IH _ B E) as [y' [-> ->]]. now exists y'.
Qed.

(** Brace-free names closed at the same place are the same name. *)
Lemma brace_free_close (x k u v : string) :
  brace_free x = true -> brace_free k = true ->
  x ++ String "}" u = k ++ String "}" v -> x = k.
Proof.
  revert k; induction x as [|c x IH]; intros [|d k] Bx Bk E; simpl in E.
  - reflexivity.
  - apply brace_free_cons in Bk as [_ [Bc _]]. injection E as E _. congruence.
  - apply brace_free_cons in Bx as [_ [Bc _]]. injection E as E _. congruence.
  - apply brace_free_cons in Bx as [_ [_ Bx]].
    apply brace_free_cons in Bk as [_ [_ Bk]].
    injection E as -> E. f_equal. now apply IH.
Qed.

Lemma close_has_no_open (y z : string) : "}}" <> y ++ String "{" z.
Proof.
  destruct y as [|c1 [|c2 [|c3 y]]]; simpl; discriminate.
Qed.

(** A match of [{{k}}] that begins before an occurrence of [{{x}}] ends
    before it. *)
Lemma placeholder_no_straddle (k x a2 b : string) :
  brace_free k = true -> a2 <> "" ->
  prefix (placeholder k) (a2 ++ placeholder x ++ b) = true ->
  prefix (placeholder k) a2 = true.
Proof.
  intros Bk N P. apply prefix_split in P as [r E].
  destruct (app_eq_app _ _ _ _ E) as [[x' [-> _]]|[q [Q [Ek Ex]]]].
  - apply prefix_app.
  - exfalso. destruct a2 as [|c a2]; [congruence | ].
    destruct q as [|d q]; [congruence | ].
    rewrite !placeholder_unfold in *. simpl in Ek, Ex.
    injection Ek as _ Ek. injection Ex as <- Ex.
    destruct a2 as [|e a2]; simpl in Ek.
    + injection Ek as Ek. subst q.
      destruct k as [|c' k]; simpl in Ex; [discriminate | ].
      apply brace_free_cons in Bk as [Bo _]. injection Ex as Ex _. congruence.
    + injection Ek as _ Ek.
      destruct (brace_free_open _ _ _ _ Bk Ek) as [y' [_ C]].
      exact (close_has_no_open _ _ C).
Qed.

(** No match of [{{k}}] begins inside an occurrence of [{{x}}], [x <> k]. *)
Lemma placeholder_barrier (k x p1 p2 b : string) :
  brace_free k = true -> brace_free x = true -> k <> x ->
  placeholder x = p1 ++ p2 -> p2 <> "" ->
  prefix (placeholder k) (p2 ++ b) = false.
Proof.
  intros Bk Bx D E N.
  destruct (prefix (placeholder k) (p2 ++ b)) eqn:P; [exfalso | reflexivity].
  apply prefix_split in P as [r P].
  rewrite !placeholder_unfold in *.
  destruct p1 as [|c1 p1]; simpl in E.
  - subst p2. simpl in P. injection P as P.
    rewrite !app_assoc in P. simpl in P.
    apply D. symmetry. exact (brace_free_close _ _ _ _ Bx Bk P).
  - injection E as _ E. destruct p1 as [|c2 p1]; simpl in E.
    + subst p2. simpl in P. injection P as P.
      destruct x as [|c x]; simpl in P; [discriminate | ].
      apply brace_free_cons in Bx as [Bo _]. injection P as P _. congruence.
    + injection E as _ E. destruct p2 as [|d p2]; [congruence | ].
      simpl in P. injection P as -> _.
      destruct (brace_free_open _ _ _ _ Bx E) as [y' [_ C]].
      exact (close_has_no_open _ _ C).
Qed.

(** Replacing [{{k}}] passes over an occurrence of another placeholder. *)
Lemma replace_passthrough (k x new a b : string) :
  brace_free k = true -> brace_free x = true -> k <> x ->
  replace (a ++ placeholder x ++ b) (placeholder k) new
  = replace a (placeholder k) new ++ placeholder x
    ++ replace b (placeholder k) new.
Proof.
  intros Bk Bx D. rewrite !replace_placeholder.
  rewrite (scan_app _ _ _ (String.length a)).
  - f_equal. apply scan_barrier. intros p1 p2 E N.
    now apply (placeholder_barrier k x p1 p2).
  - apply placeholder_nonempty.
  - reflexivity.
  - intros a1 a2 _ N P. now apply (placeholder_no_straddle k x a2 b).
Qed.

Lemma personalize_passthrough (d : lead_data) (a x b : string) :
  Forall (fun key => brace_free key = true) (keys d) ->
  brace_free x = true -> ~ In x (keys d) ->
  personalize_template (a ++ placeholder x ++ b) d
  = personalize_template a d ++ placeholder x ++ personalize_template b d.
Proof.
  revert a b; induction d as [|[key value] d IH]; intros a b F Bx NI.
  - reflexivity.
  - cbn [personalize_template keys map fst In] in *.
    inversion F as [|? ? Bk F']; subst.
    rewrite replace_passthrough by (auto; intros ->; apply NI; auto).
    apply IH; auto.
Qed.

Lemma personalize_absent (d : lead_data) (template : string) :
  (forall key, In key (keys d) -> ~ occurs (placeholder key) template) ->
  personalize_template template d = template.
Proof.
  induction d as [|[key value] d IH]; intros H; [reflexivity | ].
  cbn [personalize_template]. rewrite replace_absent.
  - apply IH. intros k I. apply H. cbn [keys map In]. auto.
  - apply placeholder_nonempty.
  - apply H. cbn [keys map fst In]. auto.
Qed.

(** The field names of a lead, with or without the [Select] column, have
    no braces. *)
Lemma lead_row_keys_brace_free (l : Lead) :
  Forall (fun key => brace_free key = true) (keys (lead_row l)).
Proof. repeat constructor. Qed.

Lemma lead_dict_keys_brace_free (l : Lead) :
  Forall (fun key => brace_free key = true) (keys (lead_dict l)).
Proof. repeat constructor. Qed.

Lemma personalize_rendered (d : lead_data) (template : string) :
  rendered d template (personalize_template template d).
Proof.
  revert template; induction d as [|[key value] d IH]; intros template.
  - constructor.
  - cbn [personalize_template]. econstructor; [ | apply IH].
    apply replace_spec, placeholder_nonempty.
Qed.

Lemma rendered_functional (d : lead_data) (template r1 r2 : string) :
  rendered d template r1 -> rendered d template r2 -> r1 = r2.
Proof.
  intros H1; revert r2; induction H1 as [t | key value items t t1 t2 R _ IH];
    intros r2 H2.
  - inversion H2; subst; reflexivity.
  - inversion H2 as [ | ? ? ? ? u ? R' H' ]; subst.
    apply IH.
    rewrite (replaced_all_functional _ _ _ _ _ R R'). exact H'.
Qed.

End TemplateFacts.

(* ===================================================================== *)
(** * The quota and [send_email] *)
(* ===================================================================== *)

Module MailerFacts.
Import PyStr Template Mailer.
Local Open Scope py_scope.

(** ** The rollover step *)

Lemma roll_over_limit (d : date) (s : session_state) :
  email_limit (roll_over d s) = email_limit s.
Proof. unfold roll_over. now destruct (last_email_date s <? d)%Z. Qed.

Lemma roll_over_config (d : date) (s : session_state) :
  smtp_config (roll_over d s) = smtp_config s.
Proof. unfold roll_over. now destruct (last_email_date s <? d)%Z. Qed.

Lemma roll_over_later (d : date) (s : session_state) :
  (last_email_date s < d)%Z -> roll_over d s = set_quota 0 d s.
Proof.
  intros H. unfold roll_over.
  destruct (Z.ltb_spec (last_email_date s) d); [reflexivity | lia].
Qed.

Lemma roll_over_same_day (d : date) (s : session_state) :
  (d <= last_email_date s)%Z -> roll_over d s = s.
Proof.
  intros H. unfold roll_over.
  destruct (Z.ltb_spec (last_email_date s) d); [lia | reflexivity].
Qed.

Lemma roll_over_sent_le (d : date) (s : session_state) :
  (email_sent_today (roll_over d s) <= email_sent_today s)%N.
Proof.
  unfold roll_over. destruct (last_email_date s <? d)%Z; simpl; lia.
Qed.

(** ** [send_email] case by case *)

Section SendEmail.
Variables (t : tick) (recipient subject body : string) (cfg : SmtpConfig).
Variable w : world.

Local Abbreviation message :=
  (mkEnvelope recipient (smtp_email cfg) subject body cfg).

Lemma send_email_no_limit :
  email_limit (session w) = None ->
  send_email t recipient subject body cfg w
  = (Raise (AttributeError "email_limit"),
     mkWorld (rolled t w) (outbox w) (slept w)).
Proof.
  intros L. unfold send_email, bind, write, read, attr, set_session, ret, raise.
  cbn [session outbox slept]. now rewrite roll_over_limit, L.
Qed.

Lemma send_email_refused (limit : N) :
  email_limit (session w) = Some limit ->
  (limit <= email_sent_today (rolled t w))%N ->
  send_email t recipient subject body cfg w
  = (Ok (false, "Daily email limit reached"),
     mkWorld (rolled t w) (outbox w) (slept w)).
Proof.
  intros L Q. unfold send_email, bind, write, read, attr, set_session, ret, raise.
  cbn [session outbox slept]. rewrite roll_over_limit, L.
  fold (rolled t w).
  destruct (N.leb_spec limit (email_sent_today (rolled t w))); [ | lia].
  reflexivity.
Qed.

Lemma send_email_failed (limit : N) (text : string) :
  email_limit (session w) = Some limit ->
  (email_sent_today (rolled t w) < limit)%N ->
  smtp t message = Some text ->
  send_email t recipient subject body cfg w
  = (Ok (false, "Failed to send email: " ++ text),
     mkWorld (rolled t w) (outbox w ++ [message]) (slept w)).
Proof.
  intros L Q F. unfold send_email, bind, write, read, attr, set_session, ret, raise.
  cbn [session outbox slept]. rewrite roll_over_limit, L.
  fold (rolled t w).
  destruct (N.leb_spec limit (email_sent_today (rolled t w))); [lia | ].
  unfold try_except, deliver, ret, raise. cbn [session outbox slept].
  now rewrite F.
Qed.

Lemma send_email_delivered (limit : N) :
  email_limit (session w) = Some limit ->
  (email_sent_today (rolled t w) < limit)%N ->
  smtp t message = None ->
  send_email t recipient subject body cfg w
  = (Ok (true, confirmation recipient (email_sent_today (rolled t w) + 1)
                            limit),
     mkWorld (set_quota (email_sent_today (rolled t w) + 1)
                        (last_email_date (rolled t w)) (rolled t w))
             (outbox w ++ [message]) (slept w)).
Proof.
  intros L Q D. unfold send_email, bind, write, read, attr, set_session, ret, raise.
  cbn [session outbox slept]. rewrite roll_over_limit, L.
  fold (rolled t w).
  destruct (N.leb_spec limit (email_sent_today (rolled t w))); [lia | ].
  unfold try_except, deliver, ret, raise. cbn [session outbox slept].
  rewrite D.
  cbn [session outbox slept set_quota email_limit email_sent_today].
  replace (email_limit (rolled t w)) with (Some limit)
    by (unfold rolled; now rewrite roll_over_limit).
  reflexivity.
Qed.

End SendEmail.

Lemma send_email_outcome (t : tick) (recipient subject body : string)
    (cfg : SmtpConfig) (w : world) :
  outcome t recipient subject body cfg w
    (send_email t recipient subject body cfg w).
Proof.
  destruct (email_limit (session w)) as [limit|] eqn:L.
  - destruct (N.leb_spec limit (email_sent_today (rolled t w))) as [Q|Q].
    + rewrite (send_email_refused _ _ _ _ _ _ limit) by assumption.
      now apply out_refused with limit.
    + destruct (smtp t (mkEnvelope recipient (smtp_email cfg) subject body cfg))
        as [text|] eqn:D.
      * rewrite (send_email_failed _ _ _ _ _ _ limit text) by assumption.
        now apply out_failed with limit.
      * rewrite (send_email_delivered _ _ _ _ _ _ limit) by assumption.
        now apply out_delivered.
  - rewrite send_email_no_limit by assumption. now apply out_no_limit.
Qed.

Lemma rolled_limit (t : tick) (w : world) :
  email_limit (rolled t w) = email_limit (session w).
Proof. apply roll_over_limit. Qed.

Lemma rolled_sent_le (t : tick) (w : world) :
  (email_sent_today (rolled t w) <= email_sent_today (session w))%N.
Proof. apply roll_over_sent_le. Qed.

(** Two readings of the limit are the same limit. *)
Ltac same_limit :=
  repeat match goal with
  | H1 : email_limit ?s = Some ?a, H2 : email_limit ?s = Some ?b |- _ =>
      assert (b = a) by congruence; subst b; clear H2
  end.

(** Decide the rollover from the dates at hand. *)
Ltac roll :=
  try match goal with
  | H : (last_email_date ?s < ?d)%Z |- _ =>
      rewrite (roll_over_later d s H) in *
  | H : (?d <= last_email_date ?s)%Z |- _ =>
      rewrite (roll_over_same_day d s H) in *
  end.

(** ** One iteration of the send loop *)

Lemma send_one_run (mode : send_mode) (email_subject email_template : string)
    (cfg : SmtpConfig) (n i : nat) (t : tick) (lead : Lead) (acc : tally)
    (w : world) :
  let e := dispatched mode email_subject email_template cfg lead in
  let run := send_email t (msg_to e) (msg_subject e) (msg_body e) cfg w in
  exists w',
    send_one mode email_subject email_template cfg n i t lead acc w
    = (Ok (recorded acc (msg_to e) (fst run)), w') /\
    same_mail w' (snd run).
Proof.
  unfold dispatched, send_one.
  destruct (prepare mode email_subject email_template cfg lead)
    as [[recipient subject] body].
  cbn [msg_to msg_subject msg_body]. unfold try_except, bind.
  destruct (send_email t recipient subject body cfg w)
    as [[[[|] message]|e] w1]; cbn [fst snd recorded];
    unfold add_log, write, sleep, ret, set_session;
    cbn [session outbox slept];
    try destruct (i <? n - 1)%nat;
    eexists; (split; [reflexivity | ]); now unfold same_mail.
Qed.

Lemma same_mail_refl (w : world) : same_mail w w.
Proof. now unfold same_mail. Qed.

Lemma dispatched_eta (mode : send_mode) (email_subject email_template : string)
    (cfg : SmtpConfig) (lead : Lead) :
  let e := dispatched mode email_subject email_template cfg lead in
  mkEnvelope (msg_to e) (smtp_email cfg) (msg_subject e) (msg_body e) cfg = e.
Proof.
  unfold dispatched.
  now destruct (prepare mode email_subject email_template cfg lead)
    as [[recipient subject] body].
Qed.

(** ** The loop *)

Section Loop.
Variables (env : nat -> tick) (mode : send_mode).
Variables (email_subject email_template : string) (cfg : SmtpConfig).
Variable n : nat.

Local Abbreviation envelope_of :=
  (dispatched mode email_subject email_template cfg).

Local Abbreviation loop :=
  (send_loop env mode email_subject email_template cfg n).

(** Open one iteration: name the world after it and what it recorded. *)
Ltac iteration i lead acc w w1 Ew Sw :=
  cbn [send_loop]; unfold bind;
  let H := fresh in
  pose proof (send_one_run mode email_subject email_template cfg n i (env i)
                lead acc w) as H;
  cbv zeta in H; destruct H as [w1 [Ew Sw]]; rewrite Ew; clear Ew;
  fold (send_loop env mode email_subject email_template cfg n).

(** With the quota used up and no new day, every iteration is refused. *)
Lemma send_loop_refused (limit : N) (leads : list Lead) :
  forall (i : nat) (acc : tally) (w : world),
  email_limit (session w) = Some limit ->
  (limit <= email_sent_today (session w))%N ->
  (forall j, i <= j < i + List.length leads ->
             (today (env j) <= last_email_date (session w))%Z) ->
  exists acc' w',
    loop i leads acc w = (Ok acc', w') /\
    same_mail w' w /\
    success_count acc' = success_count acc /\
    failure_count acc'
    = (failure_count acc + N.of_nat (List.length leads))%N /\
    results acc'
    = (results acc
       ++ map (fun lead => Returned (msg_to (envelope_of lead)) false
                             "Daily email limit reached") leads)%list.
Proof.
  induction leads as [|lead rest IH]; intros i acc w L Q D.
  - exists acc, w. cbn [send_loop ret List.length map N.of_nat].
    rewrite N.add_0_r, List.app_nil_r. auto using same_mail_refl.
  - iteration i lead acc w w1 Ew Sw.
    assert (R : rolled (env i) w = session w).
    { apply roll_over_same_day, D. cbn [List.length]. lia. }
    rewrite (send_email_refused _ _ _ _ _ _ limit) in *
      by (try rewrite R; assumption).
    cbn [fst snd recorded] in *. destruct Sw as (S1 & S2 & S3 & S4).
    cbn [session outbox] in *. rewrite R in *.
    edestruct (IH (S i)) as [acc' [w' (E' & (T1 & T2 & T3 & T4) & C1 & C2 & C3)]];
      [ | | | exists acc', w'; split; [exact E' | ] ].
    + rewrite S3. exact L.
    + rewrite S1. exact Q.
    + intros j J. rewrite S2. apply D. cbn [List.length]. lia.
    + cbn [success_count failure_count results] in *.
      repeat split; try congruence.
      * rewrite C2. cbn [List.length]. lia.
      * rewrite C3, <- List.app_assoc. reflexivity.
Qed.

(** With room in the quota and a server that accepts, every iteration
    delivers. *)
Lemma send_loop_delivered (limit : N) (leads : list Lead) :
  forall (i : nat) (acc : tally) (w : world),
  email_limit (session w) = Some limit ->
  (email_sent_today (session w) + N.of_nat (List.length leads) <= limit)%N ->
  (forall j e, i <= j < i + List.length leads -> smtp (env j) e = None) ->
  exists acc' w' new,
    loop i leads acc w = (Ok acc', w') /\
    email_limit (session w') = Some limit /\
    outbox w' = (outbox w ++ map envelope_of leads)%list /\
    success_count acc'
    = (success_count acc + N.of_nat (List.length leads))%N /\
    failure_count acc' = failure_count acc /\
    results acc' = (results acc ++ new)%list /\
    List.length new = List.length leads /\
    Forall (fun a => succeeded a = true) new /\
    (email_sent_today (session w')
     <= email_sent_today (session w) + N.of_nat (List.length leads))%N /\
    ((forall j, i <= j < i + List.length leads ->
                (today (env j) <= last_email_date (session w))%Z) ->
     email_sent_today (session w')
     = (email_sent_today (session w) + N.of_nat (List.length leads))%N /\
     last_email_date (session w') = last_email_date (session w)).
Proof.
  induction leads as [|lead rest IH]; intros i acc w L Q D.
  - exists acc, w, []. cbn [send_loop ret List.length map N.of_nat].
    rewrite !N.add_0_r, !List.app_nil_r. repeat split; auto. lia.
  - iteration i lead acc w w1 Ew Sw.
    pose proof (rolled_sent_le (env i) w) as B.
    cbn [List.length] in Q.
    set (e := dispatched mode email_subject email_template cfg lead) in *.
    assert (Run : (email_sent_today (rolled (env i) w) < limit)%N) by lia.
    apply (send_email_delivered (env i) (msg_to e) (msg_subject e)
             (msg_body e) cfg w limit L) in Run;
      [ | apply D; cbn [List.length]; lia ].
    rewrite Run in *. clear Run. subst e.
    pose proof (dispatched_eta mode email_subject email_template cfg lead)
      as Eta. cbv zeta in Eta. rewrite Eta in *. clear Eta.
    cbn [fst snd recorded] in *. destruct Sw as (S1 & S2 & S3 & S4).
    cbn [session outbox set_quota email_sent_today last_email_date
         email_limit] in *.
    rewrite rolled_limit in S3.
    edestruct (IH (S i)) as
      [acc' [w' [new (E' & T1 & T2 & C1 & C2 & C3 & C4 & C5 & C6 & C7)]]];
      [ | | | exists acc', w'; eexists (_ :: new); split; [exact E' | ] ].
    + rewrite S3. exact L.
    + rewrite S1. lia.
    + intros j e J. apply D. cbn [List.length]. lia.
    + cbn [success_count failure_count results List.length map] in *.
      repeat split.
      * exact T1.
      * rewrite T2, S4, <- List.app_assoc. reflexivity.
      * rewrite C1. lia.
      * exact C2.
      * rewrite C3, <- List.app_assoc. reflexivity.
      * cbn [List.length]. now rewrite C4.
      * constructor; [reflexivity | exact C5].
      * rewrite S1 in C6. lia.
      * assert (R : rolled (env i) w = session w).
        { apply roll_over_same_day, H. lia. }
        rewrite R in *. destruct C7 as [C7 _]; [ | rewrite C7, S1; lia].
        intros j J. rewrite S2. apply H. lia.
      * assert (R : rolled (env i) w = session w).
        { apply roll_over_same_day, H. lia. }
        rewrite R in *. destruct C7 as [_ C7]; [ | now rewrite C7, S2].
        intros j J. rewrite S2. apply H. lia.
Qed.

(** The loop over a concatenation is the loop over its parts. *)
Lemma send_loop_app (l1 l2 : list Lead) :
  forall (i : nat) (acc : tally) (w : world),
  loop i (l1 ++ l2)%list acc w
  = match loop i l1 acc w with
    | (Ok acc1, w1) => loop (i + List.length l1) l2 acc1 w1
    | (Raise e, w1) => (Raise e, w1)
    end.
Proof.
  induction l1 as [|lead rest IH]; intros i acc w.
  - cbn [send_loop ret List.app List.length]. now rewrite Nat.add_0_r.
  - cbn [send_loop List.app List.length]. unfold bind.
    destruct (send_one mode email_subject email_template cfg n i (env i)
                lead acc w) as [[acc1|e] w1]; [ | reflexivity].
    rewrite IH. now rewrite Nat.add_succ_comm.
Qed.

(** An iteration whose delivery fails is recorded, and the loop goes on. *)
Lemma send_loop_step_failed (limit : N) (lead : Lead) (rest : list Lead)
    (i : nat) (acc : tally) (w : world) :
  email_limit (session w) = Some limit ->
  (email_sent_today (session w) < limit)%N ->
  (forall e, smtp (env i) e <> None) ->
  exists w1 text,
    smtp (env i) (envelope_of lead) = Some text /\
    loop i (lead :: rest) acc w
    = loop (S i) rest
        (mkTally (success_count acc) (failure_count acc + 1)
           (results acc
            ++ [Returned (msg_to (envelope_of lead)) false
                         ("Failed to send email: " ++ text)])) w1 /\
    email_limit (session w1) = Some limit /\
    (email_sent_today (session w1) <= email_sent_today (session w))%N /\
    outbox w1 = (outbox w ++ [envelope_of lead])%list.
Proof.
  intros L Q F.
  iteration i lead acc w w1 Ew Sw.
  pose proof (rolled_sent_le (env i) w) as B.
  set (e := dispatched mode email_subject email_template cfg lead) in *.
  pose proof (dispatched_eta mode email_subject email_template cfg lead)
    as Eta. cbv zeta in Eta. fold e in Eta.
  destruct (smtp (env i) e) as [text|] eqn:T; [ | now elim (F e)].
  assert (Run : (email_sent_today (rolled (env i) w) < limit)%N) by lia.
  apply (send_email_failed (env i) (msg_to e) (msg_subject e)
           (msg_body e) cfg w limit text L) in Run;
    [ | now rewrite Eta ].
  rewrite Run in *. clear Run. rewrite Eta in *.
  cbn [fst snd recorded] in *. destruct Sw as (S1 & S2 & S3 & S4).
  cbn [session outbox] in *. rewrite rolled_limit in S3.
  exists w1, text. repeat split; try congruence.
Qed.

(** The loop always runs to its end, whatever the server and the session
    are like: exceptions do not leave an iteration.  Each message that
    reached the server is the message of a lead of the selection. *)
Lemma send_loop_total (leads : list Lead) :
  forall (i : nat) (acc : tally) (w : world),
  exists acc' w' reached,
    loop i leads acc w = (Ok acc', w') /\
    outbox w' = (outbox w ++ map envelope_of reached)%list /\
    incl reached leads /\
    List.length (results acc')
    = List.length (results acc) + List.length leads.
Proof.
  induction leads as [|lead rest IH]; intros i acc w.
  - exists acc, w, []. cbn [send_loop ret map List.length].
    rewrite List.app_nil_r, Nat.add_0_r. repeat split. apply incl_refl.
  - iteration i lead acc w w1 Ew Sw.
    set (e := dispatched mode email_subject email_template cfg lead) in *.
    pose proof (dispatched_eta mode email_subject email_template cfg lead)
      as Eta. cbv zeta in Eta. fold e in Eta.
    match goal with
    | |- context [recorded acc ?r ?x] => set (acc1 := recorded acc r x)
    end.
    assert (A : List.length (results acc1) = S (List.length (results acc))).
    { subst acc1.
      destruct (fst (send_email (env i) (msg_to e) (msg_subject e)
                       (msg_body e) cfg w)) as [[[|] message]|err];
        cbn [recorded results]; rewrite List.length_app; simpl; lia. }
    destruct (IH (S i) acc1 w1) as [acc' [w' [reached (E' & O & I & R)]]].
    assert (Out : outbox w1 = outbox w \/ outbox w1 = (outbox w ++ [e])%list).
    { destruct Sw as (_ & _ & _ & S4). rewrite S4.
      destruct (send_email_outcome (env i) (msg_to e) (msg_subject e)
                  (msg_body e) cfg w); cbn [snd outbox]; rewrite ?Eta; auto. }
    destruct Out as [Out|Out]; rewrite Out in O.
    + exists acc', w', reached. repeat split; auto.
      * now apply incl_tl.
      * rewrite R, A. cbn [List.length]. lia.
    + exists acc', w', (lead :: reached). repeat split; auto.
      * rewrite O, <- List.app_assoc. reflexivity.
      * apply incl_cons; [now left | now apply incl_tl].
      * rewrite R, A. cbn [List.length]. lia.
Qed.

End Loop.

End MailerFacts.

(* ===================================================================== *)
(** * The contract of the template engine *)
(* ===================================================================== *)

Module TemplateContract.
Import PyStr PyStrFacts Template TemplateFacts Sample.

(** [C7] For every template and every lead, [personalize_template] does
    what the contract says, and nothing else: its result is the one string
    obtained by replacing, for each field of the lead in turn, every literal
    occurrence of [{{fieldName}}] by the field's string value.  In
    particular the template ["{{firstName}} at {{company}}"] rendered for
    [{firstName: "Jane", company: "Acme"}] is ["Jane at Acme"]. *)
Theorem C7_every_occurrence_of_every_field_replaced
    (template : string) (d : lead_data) :
  (forall out, rendered d template out
               <-> out = personalize_template template d) /\
  personalize_template "{{firstName}} at {{company}}"
    [("firstName", PStr "Jane"); ("company", PStr "Acme")]
  = "Jane at Acme".
Proof.
  split; [ | reflexivity].
  intros out; split.
  - intros R. exact (rendered_functional d template _ _ R
                       (personalize_rendered d template)).
  - intros ->. apply personalize_rendered.
Qed.

(** The fields are handled one after the other, so a value that is itself
    shaped like the placeholder of a later field is rewritten again. *)
Example personalize_in_field_order :
  personalize_template "{{a}}" [("a", PStr "{{b}}"); ("b", PStr "X")] = "X" /\
  personalize_template "{{a}}" [("b", PStr "X"); ("a", PStr "{{b}}")]
  = "{{b}}".
Proof. split; reflexivity. Qed.

(** In the send loop the row of a lead carries the [Select] column too. *)
Example personalize_select_column :
  personalize_template "{{firstName}}: {{Select}}" (lead_row jane)
  = "Jane: True" /\
  personalize_template "{{firstName}}: {{Select}}" (lead_dict jane)
  = "Jane: {{Select}}".
Proof. split; reflexivity. Qed.

(** Field names are brace-free; a key with braces in it could reach into
    the placeholder of another name. *)
Example brace_in_field_name :
  personalize_template "{{b}}}}" [("b}}", PStr "X")] = "X".
Proof. reflexivity. Qed.

(** [C8] A placeholder whose name is not a field of the lead is left as it
    is: with brace-free field names, a template [a ++ "{{x}}" ++ b] whose
    name [x] is brace-free and not a field renders to the rendering of [a],
    the untouched ["{{x}}"], and the rendering of [b].  A template in which
    no placeholder of a field occurs is returned unchanged.  The function is
    total: no input makes it fail. *)
Theorem C8_unmatched_placeholders_left_unchanged (d : lead_data) :
  (forall a x b,
     Forall (fun key => brace_free key = true) (keys d) ->
     brace_free x = true ->
     ~ In x (keys d) ->
     personalize_template (a ++ placeholder x ++ b) d
     = personalize_template a d ++ placeholder x
       ++ personalize_template b d) /\
  (forall template,
     (forall key, In key (keys d) -> ~ occurs (placeholder key) template) ->
     personalize_template template d = template).
Proof.
  split.
  - intros a x b. apply personalize_passthrough.
  - intros template. apply personalize_absent.
Qed.

Lemma C8_witness :
  personalize_template
    ("Hi {{firstName}} " ++ placeholder "nickname" ++ " of {{company}}")
    (lead_row jane)
  = "Hi Jane {{nickname}} of Acme Inc" /\
  personalize_template "Dear {{nickname}}, {{salutation}}" (lead_row jane)
  = "Dear {{nickname}}, {{salutation}}".
Proof.
  destruct (C8_unmatched_placeholders_left_unchanged (lead_row jane))
    as [Pass Keep].
  split.
  - rewrite Pass.
    + reflexivity.
    + repeat constructor.
    + reflexivity.
    + cbv. intuition discriminate.
  - apply Keep. intros key I.
    apply not_contains_not_occurs.
    cbv in I. decompose [or] I; subst; try contradiction; reflexivity.
Defined.

End TemplateContract.

(* ===================================================================== *)
(** * The contract of [send_email] *)
(* ===================================================================== *)

Module QuotaContract.
Import PyStr Template Mailer MailerFacts Sample.

Lemma rollover_then_check
    (t : tick) (recipient subject body : string) (cfg : SmtpConfig)
    (w : world) :
  let run := send_email t recipient subject body cfg w in
  let delivered := match fst run with Ok (true, _) => 1%N | _ => 0%N end in
  ((last_email_date (session w) < today t)%Z ->
     last_email_date (session (snd run)) = today t /\
     email_sent_today (session (snd run)) = delivered) /\
  ((today t <= last_email_date (session w))%Z ->
     last_email_date (session (snd run)) = last_email_date (session w) /\
     email_sent_today (session (snd run))
     = (email_sent_today (session w) + delivered)%N) /\
  (forall limit,
     (last_email_date (session w) < today t)%Z ->
     email_limit (session w) = Some limit ->
     email_sent_today (session w) = limit ->
     (1 <= limit)%N ->
     smtp t (mkEnvelope recipient (smtp_email cfg) subject body cfg) = None ->
     fst run = Ok (true, confirmation recipient 1 limit) /\
     email_sent_today (session (snd run)) = 1%N).
Proof.
  intros run delivered. subst delivered run.
  destruct (send_email_outcome t recipient subject body cfg w)
    as [L | limit L Q | limit text L Q F | limit L Q D];
    cbn [fst snd session]; unfold rolled in *;
    (split; [ | split]); intros; same_limit; roll;
    cbn [set_quota last_email_date email_sent_today] in *;
    try congruence; try (split; [reflexivity || congruence | lia]);
    try lia.
  split; [simpl N.add; congruence | reflexivity].
Qed.

(** On a new day a failed delivery is reported as such: the call was
    admitted, not refused. *)
Lemma new_day_failure_is_not_refusal
    (t : tick) (recipient subject body : string) (cfg : SmtpConfig)
    (w : world) (limit : N) (text : string) :
  (last_email_date (session w) < today t)%Z ->
  email_limit (session w) = Some limit ->
  (1 <= limit)%N ->
  smtp t (mkEnvelope recipient (smtp_email cfg) subject body cfg)
  = Some text ->
  fst (send_email t recipient subject body cfg w)
  = Ok (false, "Failed to send email: " ++ text) /\
  email_sent_today (session (snd (send_email t recipient subject body cfg w)))
  = 0%N.
Proof.
  intros Later L One F.
  assert (R : email_sent_today (rolled t w) = 0%N).
  { unfold rolled. now rewrite roll_over_later. }
  rewrite (send_email_failed t recipient subject body cfg w limit text);
    [ | exact L | rewrite R; lia | exact F ].
  cbn [fst snd session]. auto.
Qed.

(** [C3] (as amended) The counter is reset exactly when the current date is
    later than the stored one, and the reset comes before the limit check: a
    call on a later date leaves the stamp at the current date and the
    counter at 1 or 0 according to whether the message was delivered; a call
    on the stored date or an earlier one keeps the stamp and adds the
    delivery to the counter.  In particular, with the stamp on a prior date,
    the counter at the limit and a limit of at least 1, the first call of the
    new day is not refused: if the server accepts the message it returns
    success and leaves the counter at 1, and if the delivery fails it
    returns that failure, not the refusal of the limit check, and leaves
    the counter at 0. *)
Theorem C3_rollover_precedes_limit_check
    (t : tick) (recipient subject body : string) (cfg : SmtpConfig)
    (w : world) :
  let run := send_email t recipient subject body cfg w in
  let delivered := match fst run with Ok (true, _) => 1%N | _ => 0%N end in
  ((last_email_date (session w) < today t)%Z ->
     last_email_date (session (snd run)) = today t /\
     email_sent_today (session (snd run)) = delivered) /\
  ((today t <= last_email_date (session w))%Z ->
     last_email_date (session (snd run)) = last_email_date (session w) /\
     email_sent_today (session (snd run))
     = (email_sent_today (session w) + delivered)%N) /\
  (forall limit,
     (last_email_date (session w) < today t)%Z ->
     email_limit (session w) = Some limit ->
     email_sent_today (session w) = limit ->
     (1 <= limit)%N ->
     smtp t (mkEnvelope recipient (smtp_email cfg) subject body cfg) = None ->
     fst run = Ok (true, confirmation recipient 1 limit) /\
     email_sent_today (session (snd run)) = 1%N) /\
  (forall limit text,
     (last_email_date (session w) < today t)%Z ->
     email_limit (session w) = Some limit ->
     (1 <= limit)%N ->
     smtp t (mkEnvelope recipient (smtp_email cfg) subject body cfg)
     = Some text ->
     fst run = Ok (false, "Failed to send email: " ++ text) /\
     email_sent_today (session (snd run)) = 0%N).
Proof.
  intros run delivered.
  destruct (rollover_then_check t recipient subject body cfg w)
    as (A & B & C).
  split; [exact A | ]. split; [exact B | ]. split; [exact C | ].
  intros limit text. apply new_day_failure_is_not_refusal.
Qed.

Lemma C3_witness :
  (fst (send_email (accepting 11) "jane.smith@acmeinc.com" "Hello" "<p>Hi</p>"
          account (at_quota 50 10 50))
   = Ok (true, "Email sent to jane.smith@acmeinc.com. (1/50 sent today)") /\
   email_sent_today
     (session (snd (send_email (accepting 11) "jane.smith@acmeinc.com" "Hello"
                      "<p>Hi</p>" account (at_quota 50 10 50))))
   = 1%N) /\
  last_email_date
    (session (snd (send_email (refusing 11) "jane.smith@acmeinc.com" "Hello"
                     "<p>Hi</p>" account (at_quota 50 10 50))))
  = 11%Z /\
  email_sent_today
    (session (snd (send_email (accepting 10) "jane.smith@acmeinc.com" "Hello"
                     "<p>Hi</p>" account (at_quota 7 10 50))))
  = 8%N /\
  fst (send_email (refusing 11) "jane.smith@acmeinc.com" "Hello" "<p>Hi</p>"
         account (at_quota 50 10 50))
  = Ok (false, "Failed to send email: Connection refused").
Proof.
  split; [ | split; [ | split]].
  - apply (C3_rollover_precedes_limit_check (accepting 11)
             "jane.smith@acmeinc.com" "Hello" "<p>Hi</p>" account
             (at_quota 50 10 50)) with (limit := 50%N).
    + reflexivity.
    + reflexivity.
    + reflexivity.
    + discriminate.
    + reflexivity.
  - apply (proj1 (C3_rollover_precedes_limit_check (refusing 11)
                    "jane.smith@acmeinc.com" "Hello" "<p>Hi</p>" account
                    (at_quota 50 10 50))).
    reflexivity.
  - apply (proj1 (proj2 (C3_rollover_precedes_limit_check (accepting 10)
                           "jane.smith@acmeinc.com" "Hello" "<p>Hi</p>"
                           account (at_quota 7 10 50)))).
    discriminate.
  - pose proof (C3_rollover_precedes_limit_check (refusing 11)
                  "jane.smith@acmeinc.com" "Hello" "<p>Hi</p>" account
                  (at_quota 50 10 50)) as H.
    cbv zeta in H. destruct H as (_ & _ & _ & D).
    apply (D 50%N "Connection refused").
    + reflexivity.
    + reflexivity.
    + discriminate.
    + reflexivity.
Defined.

(** On a date earlier than the stored one the counter is not reset, though
    the dates differ: a call at the limit is refused. *)
Lemma C3_counterexample :
  ~ (forall (t : tick) (recipient subject body : string) (cfg : SmtpConfig)
            (w : world),
       today t <> last_email_date (session w) ->
       email_sent_today
         (session (snd (send_email t recipient subject body cfg w)))
       = match fst (send_email t recipient subject body cfg w) with
         | Ok (true, _) => 1%N
         | _ => 0%N
         end) /\
  today (accepting 9) <> last_email_date (session (at_quota 50 10 50)) /\
  send_email (accepting 9) "jane.smith@acmeinc.com" "Hello" "<p>Hi</p>"
    account (at_quota 50 10 50)
  = (Ok (false, "Daily email limit reached"), at_quota 50 10 50).
Proof.
  split; [ | split].
  - intros H.
    specialize (H (accepting 9) "jane.smith@acmeinc.com" "Hello" "<p>Hi</p>"
                  account (at_quota 50 10 50)).
    cbv in H. discriminate H. discriminate.
  - discriminate.
  - reflexivity.
Qed.

(** [C4] A call that starts with the counter at or below the limit ends
    with the counter at or below the limit, and leaves the limit as it
    was: the counter grows only behind the check that it is strictly below
    the limit. *)
Theorem C4_counter_stays_within_limit
    (t : tick) (recipient subject body : string) (cfg : SmtpConfig)
    (w : world) (limit : N) :
  email_limit (session w) = Some limit ->
  (email_sent_today (session w) <= limit)%N ->
  email_limit (session (snd (send_email t recipient subject body cfg w)))
  = Some limit /\
  (email_sent_today
     (session (snd (send_email t recipient subject body cfg w)))
   <= limit)%N.
Proof.
  intros L Q. pose proof (rolled_sent_le t w) as B.
  pose proof (rolled_limit t w) as RL.
  destruct (send_email_outcome t recipient subject body cfg w)
    as [L' | limit' L' Q' | limit' text L' Q' F | limit' L' Q' D];
    same_limit;
    cbn [snd session set_quota email_limit email_sent_today];
    split; try congruence; lia.
Qed.

Lemma C4_witness :
  email_limit
    (session (snd (send_email (accepting 10) "jane.smith@acmeinc.com" "Hello"
                     "<p>Hi</p>" account (at_quota 49 10 50))))
  = Some 50%N /\
  (email_sent_today
     (session (snd (send_email (accepting 10) "jane.smith@acmeinc.com" "Hello"
                      "<p>Hi</p>" account (at_quota 49 10 50))))
   <= 50)%N.
Proof.
  apply (C4_counter_stays_within_limit (accepting 10)
           "jane.smith@acmeinc.com" "Hello" "<p>Hi</p>" account
           (at_quota 49 10 50) 50%N).
  - reflexivity.
  - discriminate.
Defined.

(** [C9] The counter moves on the success path only.  After a call that
    returns a failure the counter is what the rollover step left, and the
    failure is either the refusal of the limit check or the report of an
    exception of the delivery; after a call that returns success it is one
    more than what the rollover step left. *)
Theorem C9_failure_leaves_counter_untouched
    (t : tick) (recipient subject body : string) (cfg : SmtpConfig)
    (w : world) (ok : bool) (message : string) :
  fst (send_email t recipient subject body cfg w) = Ok (ok, message) ->
  let after_rollover :=
    email_sent_today (roll_over (today t) (session w)) in
  let counter :=
    email_sent_today
      (session (snd (send_email t recipient subject body cfg w))) in
  if ok
  then counter = (after_rollover + 1)%N
  else counter = after_rollover /\
       (message = "Daily email limit reached" \/
        exists text,
          smtp t (mkEnvelope recipient (smtp_email cfg) subject body cfg)
          = Some text /\
          message = "Failed to send email: " ++ text).
Proof.
  destruct (send_email_outcome t recipient subject body cfg w)
    as [L | limit L Q | limit text L Q F | limit L Q D];
    cbn [fst snd session set_quota email_sent_today]; intros E;
    inversion E; subst; cbv zeta; unfold rolled; auto.
  split; [reflexivity | ]. right. now exists text.
Qed.

Lemma C9_witness :
  email_sent_today
    (session (snd (send_email (refusing 11) "jane.smith@acmeinc.com" "Hello"
                     "<p>Hi</p>" account (at_quota 7 10 50))))
  = 0%N /\
  email_sent_today
    (session (snd (send_email (accepting 10) "jane.smith@acmeinc.com" "Hello"
                     "<p>Hi</p>" account (at_quota 7 10 50))))
  = 8%N.
Proof.
  split.
  - apply (C9_failure_leaves_counter_untouched (refusing 11)
             "jane.smith@acmeinc.com" "Hello" "<p>Hi</p>" account
             (at_quota 7 10 50) false
             "Failed to send email: Connection refused").
    reflexivity.
  - apply (C9_failure_leaves_counter_untouched (accepting 10)
             "jane.smith@acmeinc.com" "Hello" "<p>Hi</p>" account
             (at_quota 7 10 50) true
             "Email sent to jane.smith@acmeinc.com. (8/50 sent today)").
    reflexivity.
Defined.

(** [C10] With [email_limit] in the session state (the other attributes
    read by the quota check are set when the script is loaded), no exception
    leaves [send_email]: the call returns a pair of a boolean and a string,
    and an exception raised while the message is built and delivered comes
    back as [(False, "Failed to send email: ...")] with its text. *)
Theorem C10_no_exception_leaves_send_email
    (t : tick) (recipient subject body : string) (cfg : SmtpConfig)
    (w : world) (limit : N) :
  email_limit (session w) = Some limit ->
  (exists ok message,
     fst (send_email t recipient subject body cfg w) = Ok (ok, message)) /\
  (forall text,
     (email_sent_today (roll_over (today t) (session w)) < limit)%N ->
     smtp t (mkEnvelope recipient (smtp_email cfg) subject body cfg)
     = Some text ->
     fst (send_email t recipient subject body cfg w)
     = Ok (false, "Failed to send email: " ++ text)).
Proof.
  intros L. split.
  - destruct (send_email_outcome t recipient subject body cfg w)
      as [L' | limit' L' Q' | limit' text L' Q' F | limit' L' Q' D];
      cbn [fst]; [congruence | eauto ..].
  - intros text Q F.
    now rewrite (send_email_failed t recipient subject body cfg w limit text).
Qed.

Lemma C10_witness :
  (exists ok message,
     fst (send_email (refusing 10) "jane.smith@acmeinc.com" "Hello" "<p>Hi</p>"
            account (at_quota 7 10 50))
     = Ok (ok, message)) /\
  fst (send_email (refusing 10) "jane.smith@acmeinc.com" "Hello" "<p>Hi</p>"
         account (at_quota 7 10 50))
  = Ok (false, "Failed to send email: Connection refused").
Proof.
  destruct (C10_no_exception_leaves_send_email (refusing 10)
              "jane.smith@acmeinc.com" "Hello" "<p>Hi</p>" account
              (at_quota 7 10 50) 50%N eq_refl) as [Total Caught].
  split; [exact Total | ].
  apply Caught; reflexivity.
Defined.

(** Without [email_limit] the call raises, and the rollover it made stays. *)
Example send_email_without_limit :
  send_email (accepting 11) "jane.smith@acmeinc.com" "Hello" "<p>Hi</p>"
    account (unconfigured 7 10)
  = (Raise (AttributeError "email_limit"), unconfigured 0 11).
Proof. reflexivity. Qed.

End QuotaContract.

(* ===================================================================== *)
(** * The contract of the send loop *)
(* ===================================================================== *)

Module BatchContract.
Import PyStr PyStrFacts Template Mailer MailerFacts Sample.

(** ** Which lead each attempt and each message belongs to *)

Section Traced.
Variables (env : nat -> tick) (mode : send_mode).
Variables (email_subject email_template : string) (cfg : SmtpConfig).
Variable n : nat.

Local Abbreviation envelope_of :=
  (dispatched mode email_subject email_template cfg).

Local Abbreviation loop :=
  (send_loop env mode email_subject email_template cfg n).

(** What the iteration of a lead records, and whether it left a message. *)
Lemma iteration_traced (i : nat) (lead : Lead) (acc : tally) (w : world) :
  exists acc1 w1 a,
    send_one mode email_subject email_template cfg n i (env i) lead acc w
    = (Ok acc1, w1) /\
    results acc1 = (results acc ++ [a])%list /\
    names_recipient (fun l => msg_to (envelope_of l)) lead a /\
    outbox w1
    = (if tried_delivery a then (outbox w ++ [envelope_of lead])%list
       else outbox w) /\
    email_limit (session w1) = email_limit (session w) /\
    (email_sent_today (session w1) <= email_sent_today (session w) + 1)%N /\
    (forall limit,
       email_limit (session w) = Some limit ->
       (email_sent_today (session w) < limit)%N ->
       tried_delivery a = true).
Proof.
  pose proof (send_one_run mode email_subject email_template cfg n i (env i)
                lead acc w) as H.
  cbv zeta in H. destruct H as [w1 [E (S1 & _ & S3 & S4)]].
  pose proof (dispatched_eta mode email_subject email_template cfg lead)
    as Eta. cbv zeta in Eta.
  pose proof (rolled_sent_le (env i) w) as B.
  pose proof (rolled_limit (env i) w) as RL.
  set (e := dispatched mode email_subject email_template cfg lead) in *.
  revert E S1 S3 S4.
  destruct (send_email_outcome (env i) (msg_to e) (msg_subject e)
              (msg_body e) cfg w)
    as [L | limit L Q | limit text L Q F | limit L Q D];
    cbn [fst snd recorded session outbox set_quota email_limit
         email_sent_today];
    intros E S1 S3 S4; rewrite ?Eta in S4;
    eexists _, w1, _; (split; [exact E | ]);
    cbn [results]; (split; [reflexivity | ]);
    cbn [names_recipient tried_delivery orb]; rewrite ?prefix_app;
    try change (prefix "Failed to send email: " "Daily email limit reached")
      with false;
    (split; [exact I || reflexivity | ]);
    (split; [exact S4 | ]);
    (split; [congruence | ]);
    (split; [lia | ]);
    intros lim Lm Lt; same_limit; try congruence; try reflexivity; lia.
Qed.

(** Every attempt is recorded for its lead, in the order of the selection,
    and the messages in the outbox are those of the leads whose iteration
    got as far as a delivery attempt, each lead's own, in that order. *)
Lemma send_loop_traced (leads : list Lead) :
  forall (i : nat) (acc : tally) (w : world),
  exists acc' w' new,
    loop i leads acc w = (Ok acc', w') /\
    results acc' = (results acc ++ new)%list /\
    Forall2 (names_recipient (fun l => msg_to (envelope_of l))) leads new /\
    outbox w'
    = (outbox w ++ map envelope_of (tried_leads leads new))%list /\
    (forall limit,
       email_limit (session w) = Some limit ->
       (email_sent_today (session w) + N.of_nat (List.length leads)
        <= limit)%N ->
       tried_leads leads new = leads).
Proof.
  induction leads as [|lead rest IH]; intros i acc w.
  - exists acc, w, []. cbn [send_loop ret tried_leads map].
    rewrite !List.app_nil_r. repeat split; auto.
  - destruct (iteration_traced i lead acc w)
      as [acc1 [w1 [a (E1 & R1 & Nm & O1 & L1 & Q1 & T1)]]].
    destruct (IH (S i) acc1 w1) as [acc' [w' [new (E & R & F & O & T)]]].
    cbn [send_loop]. unfold bind. rewrite E1, E.
    exists acc', w', (a :: new). split; [reflexivity | ].
    split; [rewrite R, R1, <- List.app_assoc; reflexivity | ].
    split; [constructor; assumption | ].
    split.
    + rewrite O, O1. cbn [tried_leads].
      destruct (tried_delivery a); cbn [map];
        now rewrite <- ?List.app_assoc.
    + intros limit Lm Room. cbn [List.length] in Room.
      cbn [tried_leads]. rewrite (T1 limit Lm) by lia.
      f_equal. apply (T limit); [congruence | lia].
Qed.

End Traced.

Section Batch.
Variables (env : nat -> tick) (mode : send_mode).
Variables (email_subject email_template : string) (cfg : SmtpConfig).

Local Abbreviation envelope_of :=
  (dispatched mode email_subject email_template cfg).

Local Abbreviation batch :=
  (send_batch env mode email_subject email_template cfg).

(** [C1] A batch that starts with the counter at or above the limit, and
    during which no date later than the stored one is read, hands no message
    to the server: every lead's call of [send_email] returns the failure
    "Daily email limit reached", the batch counts no success and one failure
    per lead, and the counter is where it was. *)
Theorem C1_exhausted_quota_sends_nothing
    (leads : list Lead) (w : world) (limit : N) :
  email_limit (session w) = Some limit ->
  (limit <= email_sent_today (session w))%N ->
  (forall i, i < List.length leads ->
             (today (env i) <= last_email_date (session w))%Z) ->
  exists acc w',
    batch leads w = (Ok acc, w') /\
    outbox w' = outbox w /\
    results acc
    = map (fun lead => Returned (msg_to (envelope_of lead)) false
                         "Daily email limit reached") leads /\
    success_count acc = 0%N /\
    failure_count acc = N.of_nat (List.length leads) /\
    email_sent_today (session w') = email_sent_today (session w).
Proof.
  intros L Q D. unfold send_batch.
  destruct (send_loop_refused env mode email_subject email_template cfg
              (List.length leads) limit leads 0 tally0 w L Q)
    as [acc [w' (E & (S1 & S2 & S3 & S4) & C1 & C2 & C3)]].
  { intros j J. apply D. lia. }
  exists acc, w'. cbn [tally0 success_count failure_count results] in *.
  rewrite N.add_0_l in C2. auto 10.
Qed.

(** [C2] (as amended) When the server accepts every message and the limit
    leaves room for the whole selection, the batch counts one success per
    lead and no failure.  The counter ends at most [N] above where it was,
    and exactly [N] above when no date later than the stored one is read
    during the batch. *)
Theorem C2_every_lead_delivered
    (leads : list Lead) (w : world) (limit : N) :
  email_limit (session w) = Some limit ->
  (email_sent_today (session w) + N.of_nat (List.length leads) <= limit)%N ->
  (forall i e, i < List.length leads -> smtp (env i) e = None) ->
  exists acc w',
    batch leads w = (Ok acc, w') /\
    success_count acc = N.of_nat (List.length leads) /\
    failure_count acc = 0%N /\
    (email_sent_today (session w')
     <= email_sent_today (session w) + N.of_nat (List.length leads))%N /\
    ((forall i, i < List.length leads ->
                (today (env i) <= last_email_date (session w))%Z) ->
     email_sent_today (session w')
     = (email_sent_today (session w) + N.of_nat (List.length leads))%N).
Proof.
  intros L Q D. unfold send_batch.
  destruct (send_loop_delivered env mode email_subject email_template cfg
              (List.length leads) limit leads 0 tally0 w L Q)
    as [acc [w' [new (E & _ & _ & C1 & C2 & _ & _ & _ & C6 & C7)]]].
  { intros j e J. apply D. lia. }
  exists acc, w'. cbn [tally0 success_count failure_count] in *.
  rewrite N.add_0_l in C1. repeat split; auto.
  intros Same. apply C7. intros j J. apply Same. lia.
Qed.

(** [C5] A failed delivery does not end the batch.  When the limit leaves
    room for the whole selection and the server fails for the lead at index
    [k] only, the attempt recorded at index [k] is the failure of that lead
    with the text of the exception, every attempt before and after it is a
    success, and the message of every lead, those after [k] included,
    reached the server in the order of the selection. *)
Theorem C5_failed_delivery_does_not_end_batch
    (leads : list Lead) (w : world) (limit : N) (k : nat) (lead : Lead) :
  nth_error leads k = Some lead ->
  email_limit (session w) = Some limit ->
  (email_sent_today (session w) + N.of_nat (List.length leads) <= limit)%N ->
  (forall i e, i <> k -> smtp (env i) e = None) ->
  (forall e, smtp (env k) e <> None) ->
  exists acc w' before after text,
    batch leads w = (Ok acc, w') /\
    smtp (env k) (envelope_of lead) = Some text /\
    results acc
    = (before
       ++ Returned (msg_to (envelope_of lead)) false
                   ("Failed to send email: " ++ text)
       :: after)%list /\
    List.length before = k /\
    List.length after = List.length leads - S k /\
    Forall (fun a => succeeded a = true) before /\
    Forall (fun a => succeeded a = true) after /\
    outbox w' = (outbox w ++ map envelope_of leads)%list /\
    success_count acc = N.of_nat (List.length leads - 1) /\
    failure_count acc = 1%N.
Proof.
  intros K L Q Good Bad. unfold send_batch.
  destruct (nth_error_split leads k K) as [l1 [l2 [Split Len]]].
  set (n := List.length leads) in *.
  assert (N' : n = k + S (List.length l2)).
  { subst n. rewrite Split, List.length_app. cbn [List.length]. lia. }
  clearbody n. rewrite N' in Q. rewrite Split, send_loop_app.
  destruct (send_loop_delivered env mode email_subject email_template cfg
              n limit l1 0 tally0 w L)
    as [acc1 [w1 [new1 (E1 & L1 & O1 & A1 & B1 & R1 & N1 & F1 & Q1 & _)]]].
  { lia. }
  { intros j e J. apply Good. lia. }
  rewrite E1, Len. cbn [Nat.add tally0 results success_count failure_count]
    in *.
  destruct (send_loop_step_failed env mode email_subject email_template cfg
              n limit lead l2 k acc1 w1 L1)
    as [w2 [text (T & E2 & L2 & Q2 & O2)]]; [lia | exact Bad | ].
  rewrite E2.
  match goal with
  | |- context [send_loop _ _ _ _ _ _ (S k) l2 ?acc2 w2] =>
      destruct (send_loop_delivered env mode email_subject email_template cfg
                  n limit l2 (S k) acc2 w2 L2)
        as [acc [w' [new2 (E3 & _ & O3 & A3 & B3 & R3 & N3 & F3 & _ & _)]]]
  end.
  { lia. }
  { intros j e J. apply Good. lia. }
  rewrite E3.
  exists acc, w', new1, new2, text.
  cbn [results success_count failure_count] in *.
  rewrite N'. repeat split; auto.
  - rewrite R3, R1, <- List.app_assoc. reflexivity.
  - lia.
  - lia.
  - rewrite O3, O2, O1, List.map_app, <- !List.app_assoc. reflexivity.
  - rewrite A3, A1. lia.
  - rewrite B3, B1. reflexivity.
Qed.

(** [C6] (as amended) In test mode the message of every lead is addressed
    to the sender's own address, whatever the lead's address is, and its
    subject is the lead's rendered subject with the marker "[TEST] " in
    front of it and " (to: ", the lead's address and ")" behind it: the
    subject begins with the marker and contains the address the message was
    meant for, behind the rendered subject.  In a batch the attempt of every
    lead is recorded, in the order of the selection, with the sender's
    address as recipient; the messages whose delivery was attempted are, in
    that order, the messages of the leads whose iteration got as far as an
    attempt, each lead's own; and with room in the quota for the whole
    selection these are the messages of all the leads. *)
Theorem C6_test_mode_redirects_to_sender
    (subject template : string) (leads : list Lead) (w : world) :
  (forall lead,
     msg_to (dispatched TestMode subject template cfg lead) = smtp_email cfg /\
     msg_subject (dispatched TestMode subject template cfg lead)
     = "[TEST] " ++ personalize_template subject (lead_row lead)
       ++ " (to: " ++ email lead ++ ")" /\
     prefix "[TEST] "
            (msg_subject (dispatched TestMode subject template cfg lead))
     = true /\
     occurs (email lead)
            (msg_subject (dispatched TestMode subject template cfg lead))) /\
  exists acc w',
    send_batch env TestMode subject template cfg leads w = (Ok acc, w') /\
    Forall2 (names_recipient (fun _ => smtp_email cfg)) leads (results acc) /\
    outbox w'
    = (outbox w
       ++ map (dispatched TestMode subject template cfg)
              (tried_leads leads (results acc)))%list /\
    (forall limit,
       email_limit (session w) = Some limit ->
       (email_sent_today (session w) + N.of_nat (List.length leads)
        <= limit)%N ->
       outbox w'
       = (outbox w
          ++ map (dispatched TestMode subject template cfg) leads)%list).
Proof.
  split.
  - intros lead. cbn [dispatched prepare msg_to msg_subject].
    split; [reflexivity | ]. split; [reflexivity | ].
    split; [apply prefix_app | ].
    exists ("[TEST] " ++ personalize_template subject (lead_row lead)
            ++ " (to: "), ")".
    now rewrite !PyStrFacts.app_assoc.
  - unfold send_batch.
    destruct (send_loop_traced env TestMode subject template cfg
                (List.length leads) leads 0 tally0 w)
      as [acc [w' [new (E & R & F & O & T)]]].
    cbn [tally0 results List.app] in R. subst new.
    exists acc, w'. split; [exact E | ]. split; [exact F | ].
    split; [exact O | ].
    intros limit L Room. now rewrite O, (T limit L Room).
Qed.

End Batch.

Lemma C1_witness :
  exists acc w',
    send_batch (fun _ => accepting 10) TestMode subject_line body_text account
      [jane; john] (at_quota 50 10 50)
    = (Ok acc, w') /\
    outbox w' = outbox (at_quota 50 10 50) /\
    results acc
    = map (fun lead =>
             Returned (msg_to (dispatched TestMode subject_line body_text
                                 account lead))
                      false "Daily email limit reached") [jane; john] /\
    success_count acc = 0%N /\
    failure_count acc = N.of_nat (List.length [jane; john]) /\
    email_sent_today (session w')
    = email_sent_today (session (at_quota 50 10 50)).
Proof.
  apply (C1_exhausted_quota_sends_nothing (fun _ => accepting 10) TestMode
           subject_line body_text account [jane; john] (at_quota 50 10 50)
           50%N).
  - reflexivity.
  - cbn. lia.
  - intros i _. cbn. lia.
Defined.

Lemma C2_witness :
  exists acc w',
    send_batch (fun _ => accepting 10) SendNow subject_line body_text account
      [jane; john; emma] (at_quota 7 10 50)
    = (Ok acc, w') /\
    success_count acc = 3%N /\
    failure_count acc = 0%N /\
    email_sent_today (session w') = 10%N.
Proof.
  destruct (C2_every_lead_delivered (fun _ => accepting 10) SendNow
              subject_line body_text account [jane; john; emma]
              (at_quota 7 10 50) 50%N)
    as [acc [w' (E & A & B & _ & C)]].
  - reflexivity.
  - cbn. lia.
  - reflexivity.
  - exists acc, w'. repeat split; auto.
    apply C. intros i _. cbn. lia.
Defined.

(** On a new day the counter is reset before the batch counts on: a batch
    of one delivered message that starts at 3 ends at 1, not at 4. *)
Lemma C2_counterexample :
  ~ (forall (env : nat -> tick) (mode : send_mode)
            (email_subject email_template : string) (cfg : SmtpConfig)
            (leads : list Lead) (w : world) (limit : N)
            (acc : tally) (w' : world),
       email_limit (session w) = Some limit ->
       (email_sent_today (session w) + N.of_nat (List.length leads)
        <= limit)%N ->
       (forall i e, i < List.length leads -> smtp (env i) e = None) ->
       send_batch env mode email_subject email_template cfg leads w
       = (Ok acc, w') ->
       success_count acc = N.of_nat (List.length leads) /\
       failure_count acc = 0%N /\
       email_sent_today (session w')
       = (email_sent_today (session w) + N.of_nat (List.length leads))%N) /\
  email_sent_today
    (session (snd (send_batch (fun _ => accepting 11) SendNow subject_line
                     body_text account [jane] (at_quota 3 10 50))))
  = 1%N.
Proof.
  split; [ | reflexivity].
  intros H.
  destruct (send_batch (fun _ => accepting 11) SendNow subject_line body_text
              account [jane] (at_quota 3 10 50)) as [[acc|e] w'] eqn:E;
    [ | discriminate E].
  specialize (H (fun _ => accepting 11) SendNow subject_line body_text
                account [jane] (at_quota 3 10 50) 50%N acc w').
  destruct H as (_ & _ & H).
  - reflexivity.
  - cbn. lia.
  - reflexivity.
  - exact E.
  - vm_compute in E. injection E as _ E. subst w'. discriminate H.
Qed.

Lemma C5_witness :
  exists acc w' before after text,
    send_batch (failing_at 1 10) SendNow subject_line body_text account
      [jane; john; emma] (at_quota 7 10 50)
    = (Ok acc, w') /\
    smtp (failing_at 1 10 1)
         (dispatched SendNow subject_line body_text account john)
    = Some text /\
    results acc
    = (before
       ++ Returned (msg_to (dispatched SendNow subject_line body_text
                              account john))
                   false ("Failed to send email: " ++ text)
       :: after)%list /\
    List.length before = 1 /\
    List.length after = 1 /\
    Forall (fun a => succeeded a = true) before /\
    Forall (fun a => succeeded a = true) after /\
    outbox w'
    = map (dispatched SendNow subject_line body_text account)
          [jane; john; emma] /\
    success_count acc = 2%N /\
    failure_count acc = 1%N.
Proof.
  apply (C5_failed_delivery_does_not_end_batch (failing_at 1 10) SendNow
           subject_line body_text account [jane; john; emma]
           (at_quota 7 10 50) 50%N 1 john).
  - reflexivity.
  - reflexivity.
  - cbn. lia.
  - intros i e I. unfold failing_at.
    destruct (Nat.eqb_spec i 1); [contradiction | reflexivity].
  - intros e. discriminate.
Defined.

Lemma C6_witness :
  exists acc w',
    send_batch (failing_at 1 10) TestMode subject_line body_text account
      [jane; john; emma] (at_quota 7 10 50)
    = (Ok acc, w') /\
    map (fun e => (msg_to e, msg_subject e)) (outbox w')
    = [ ("me@x.com",
         "[TEST] Connecting with Acme Inc (to: jane.smith@acmeinc.com)");
        ("me@x.com",
         "[TEST] Connecting with TechGiant (to: john.moore@techgiant.com)");
        ("me@x.com",
         "[TEST] Connecting with NextGen Tech (to: emma.davis@nextgentech.com)") ].
Proof.
  destruct (C6_test_mode_redirects_to_sender (failing_at 1 10) account
              subject_line body_text [jane; john; emma] (at_quota 7 10 50))
    as [_ [acc [w' (E & _ & _ & Room)]]].
  exists acc, w'. split; [exact E | ].
  rewrite (Room 50%N); [reflexivity | reflexivity | cbn; lia].
Defined.

(** The address of the lead stands behind the rendered subject, not
    directly behind the marker: the subject of the message for Jane does
    not begin with "[TEST] jane.smith@acmeinc.com". *)
Lemma C6_counterexample :
  ~ (forall (env : nat -> tick) (cfg : SmtpConfig)
            (subject template : string) (leads : list Lead) (w : world)
            (e : envelope),
       In e (outbox (snd (send_batch env TestMode subject template cfg
                            leads w))) ->
       ~ In e (outbox w) ->
       msg_to e = smtp_email cfg /\
       exists lead,
         In lead leads /\
         prefix ("[TEST] " ++ email lead) (msg_subject e) = true) /\
  outbox (snd (send_batch (fun _ => accepting 10) TestMode subject_line
                 body_text account [jane] (at_quota 7 10 50)))
  = [dispatched TestMode subject_line body_text account jane] /\
  msg_subject (dispatched TestMode subject_line body_text account jane)
  = "[TEST] Connecting with Acme Inc (to: jane.smith@acmeinc.com)" /\
  prefix ("[TEST] " ++ email jane)
         (msg_subject (dispatched TestMode subject_line body_text account
                         jane))
  = false.
Proof.
  split; [ | repeat split].
  intros H.
  destruct (H (fun _ => accepting 10) account subject_line body_text [jane]
              (at_quota 7 10 50)
              (dispatched TestMode subject_line body_text account jane))
    as [_ [lead [I P]]].
  - left. reflexivity.
  - intros [].
  - destruct I as [<-|[]]. vm_compute in P. discriminate P.
Qed.

(** Three leads in test mode, the server failing for the second. *)
Example one_failure_of_three :
  let '(r, w') :=
    send_batch (failing_at 1 10) TestMode subject_line body_text account
      [jane; john; emma] (at_quota 7 10 50) in
  r = Ok (mkTally 2 1
            [ Returned "me@x.com" true
                "Email sent to me@x.com. (8/50 sent today)";
              Returned "me@x.com" false
                "Failed to send email: Connection refused";
              Returned "me@x.com" true
                "Email sent to me@x.com. (9/50 sent today)" ]) /\
  map msg_subject (outbox w')
  = [ "[TEST] Connecting with Acme Inc (to: jane.smith@acmeinc.com)";
      "[TEST] Connecting with TechGiant (to: john.moore@techgiant.com)";
      "[TEST] Connecting with NextGen Tech (to: emma.davis@nextgentech.com)" ] /\
  email_sent_today (session w') = 9%N /\
  slept w' = 2.
Proof. vm_compute. repeat split. Qed.

End BatchContract.

(* ===================================================================== *)
(** * Rendering a template of text and placeholders *)
(* ===================================================================== *)

Module ShapeFacts.
Import PyStr PyStrFacts Template TemplateFacts Shape Sample.

Lemma no_open_cons (c : ascii) (s : string) :
  no_open (String c s) = true -> c <> "{"%char /\ no_open s = true.
Proof.
  simpl. rewrite andb_true_iff, negb_true_iff, Ascii.eqb_neq. tauto.
Qed.

Lemma no_open_app (s t : string) :
  no_open (s ++ t) = (no_open s && no_open t)%bool.
Proof.
  induction s as [|c s IH]; simpl; [reflexivity | ].
  now rewrite IH, andb_assoc.
Qed.

(** No placeholder begins at a character that is not an opening brace. *)
Lemma placeholder_needs_open (key : string) (c : ascii) (s : string) :
  c <> "{"%char -> prefix (placeholder key) (String c s) = false.
Proof.
  intros N. rewrite placeholder_unfold. cbn [prefix].
  destruct (ascii_dec "{" c) as [E|_]; [congruence | reflexivity].
Qed.

(** The scan copies text that has no opening brace. *)
Lemma scan_text (key new s b : string) :
  no_open s = true ->
  replace_scan (placeholder key) new 0 (s ++ b)
  = s ++ replace_scan (placeholder key) new 0 b.
Proof.
  induction s as [|c s IH]; intros O; [reflexivity | ].
  apply no_open_cons in O as [C O].
  change (String c s ++ b) with (String c (s ++ b)).
  rewrite scan_miss by now apply placeholder_needs_open.
  simpl. now rewrite IH.
Qed.

Lemma scan_other_hole (key name new b : string) :
  brace_free key = true -> brace_free name = true -> key <> name ->
  replace_scan (placeholder key) new 0 (placeholder name ++ b)
  = placeholder name ++ replace_scan (placeholder key) new 0 b.
Proof.
  intros Bk Bn D. apply scan_barrier. intros p1 p2 E N.
  now apply (placeholder_barrier key name p1 p2).
Qed.

(** One field of the lead: its placeholders are filled, the rest stays. *)
Lemma replace_fill_one (key : string) (value : pyval) (ps : list piece) :
  brace_free key = true ->
  forallb shaped ps = true ->
  replace (flatten ps) (placeholder key) (str value)
  = flatten (map (fill_one key value) ps).
Proof.
  intros Bk. rewrite replace_placeholder.
  induction ps as [|[s|name] ps IH]; intros W; [reflexivity | | ];
    cbn [forallb shaped] in W; apply andb_true_iff in W as [W1 W2];
    cbn [flatten map fill_one].
  - rewrite scan_text by exact W1. now rewrite IH.
  - destruct (String.eqb_spec key name) as [<-|D]; cbn [flatten].
    + rewrite scan_hit by apply placeholder_nonempty. now rewrite IH.
    + rewrite scan_other_hole by assumption. now rewrite IH.
Qed.

Lemma fill_one_shaped (key : string) (value : pyval) (ps : list piece) :
  forallb shaped ps = true ->
  (In (Hole key) ps -> no_open (str value) = true) ->
  forallb shaped (map (fill_one key value) ps) = true.
Proof.
  induction ps as [|[s|name] ps IH]; intros W V; [reflexivity | | ];
    cbn [forallb shaped] in W; apply andb_true_iff in W as [W1 W2];
    cbn [map fill_one forallb].
  - cbn [shaped]. rewrite W1. apply IH; [exact W2 | ].
    intros I. apply V. now right.
  - destruct (String.eqb_spec key name) as [<-|D]; cbn [shaped].
    + rewrite V by now left. apply IH; [exact W2 | ].
      intros I. apply V. now right.
    + rewrite W1. apply IH; [exact W2 | ].
      intros I. apply V. now right.
Qed.

Lemma fill_one_holes (key name : string) (value : pyval) (ps : list piece) :
  In (Hole name) (map (fill_one key value) ps) -> In (Hole name) ps.
Proof.
  induction ps as [|[s|x] ps IH]; cbn [map fill_one In]; [tauto | | ].
  - intros [E|I]; [discriminate | auto].
  - destruct (String.eqb key x); intros [E|I]; auto; discriminate.
Qed.

Lemma filled_fill_one (key : string) (value : pyval) (d : lead_data)
    (p : piece) :
  filled d (fill_one key value p) = filled ((key, value) :: d) p.
Proof.
  destruct p as [s|name]; cbn [fill_one filled field]; [reflexivity | ].
  now destruct (String.eqb key name).
Qed.

Lemma filled_nil (ps : list piece) : map (filled []) ps = ps.
Proof.
  induction ps as [|[s|name] ps IH]; cbn [map filled field];
    [reflexivity | | ]; now rewrite IH.
Qed.

Lemma field_none (d : lead_data) (key : string) :
  field d key = None <-> ~ In key (keys d).
Proof.
  induction d as [|[k v] d IH]; cbn [field keys map fst In]; [tauto | ].
  destruct (String.eqb_spec k key) as [->|D].
  - split; [discriminate | tauto].
  - fold (keys d). rewrite IH. tauto.
Qed.

Lemma field_in (d : lead_data) (key : string) (value : pyval) :
  field d key = Some value -> In (key, value) d.
Proof.
  induction d as [|[k v] d IH]; cbn [field In]; [discriminate | ].
  destruct (String.eqb_spec k key) as [->|D].
  - intros E. injection E as ->. now left.
  - auto.
Qed.

Lemma personalize_substitute (d : lead_data) (ps : list piece) :
  forallb shaped ps = true ->
  forallb brace_free (keys d) = true ->
  (forall key value,
     In (key, value) d -> In (Hole key) ps -> no_open (str value) = true) ->
  personalize_template (flatten ps) d = substitute d ps.
Proof.
  unfold substitute. revert ps.
  induction d as [|[key value] d IH]; intros ps W K V.
  - cbn [personalize_template]. now rewrite filled_nil.
  - cbn [keys map fst forallb] in K. apply andb_true_iff in K as [Bk K].
    cbn [personalize_template]. rewrite replace_fill_one by assumption.
    rewrite IH.
    + rewrite List.map_map. f_equal. apply List.map_ext.
      intros p. apply filled_fill_one.
    + apply fill_one_shaped; [exact W | ].
      intros I. apply (V key value); [now left | exact I].
    + exact K.
    + intros k v I H. apply (V k v); [now right | ].
      exact (fill_one_holes _ _ _ _ H).
Qed.

Lemma filled_shaped (d : lead_data) (ps : list piece) :
  forallb shaped ps = true ->
  (forall key value,
     In (key, value) d -> In (Hole key) ps -> no_open (str value) = true) ->
  forallb shaped (map (filled d) ps) = true.
Proof.
  induction ps as [|[s|name] ps IH]; intros W V; [reflexivity | | ];
    cbn [forallb shaped] in W; apply andb_true_iff in W as [W1 W2];
    cbn [map filled forallb].
  - cbn [shaped]. rewrite W1. apply IH; [exact W2 | ].
    intros k v I H. apply (V k v I). now right.
  - destruct (field d name) as [v|] eqn:F; cbn [shaped].
    + rewrite (V name v) by (auto using field_in; now left).
      apply IH; [exact W2 | ]. intros k v' I H. apply (V k v' I). now right.
    + rewrite W1. apply IH; [exact W2 | ].
      intros k v I H. apply (V k v I). now right.
Qed.

Lemma filled_holes (d : lead_data) (ps : list piece) (name : string) :
  In (Hole name) (map (filled d) ps) -> field d name = None.
Proof.
  induction ps as [|[s|x] ps IH]; cbn [map filled In]; [tauto | | ].
  - intros [E|I]; [discriminate | auto].
  - destruct (field d x) as [v|] eqn:F; intros [E|I]; auto; try discriminate.
    injection E as <-. exact F.
Qed.

Lemma filled_twice (d : lead_data) (ps : list piece) :
  map (filled d) (map (filled d) ps) = map (filled d) ps.
Proof.
  rewrite List.map_map. apply List.map_ext. intros [s|name]; [reflexivity | ].
  cbn [filled]. destruct (field d name) as [v|] eqn:F; cbn [filled];
    [reflexivity | now rewrite F].
Qed.

Lemma in_keys (d : lead_data) (key : string) (value : pyval) :
  In (key, value) d -> In key (keys d).
Proof. intros I. apply in_map_iff. now exists (key, value). Qed.

Lemma personalize_app (template : string) (d1 d2 : lead_data) :
  personalize_template template (d1 ++ d2)%list
  = personalize_template (personalize_template template d1) d2.
Proof.
  revert template; induction d1 as [|[key value] d1 IH]; intros template;
    [reflexivity | ].
  cbn [List.app personalize_template]. apply IH.
Qed.

(** [X1] On a template made of text without opening braces and of
    placeholders with brace-free names, for a lead with brace-free field
    names whose values put into the template have no opening brace, the
    field-after-field rewriting of [personalize_template] is the
    substitution of all placeholders at once: each placeholder of a field
    shows the field's value, each other placeholder and all text is kept. *)
Theorem X1_rendering_is_substitution_at_once
    (d : lead_data) (ps : list piece) :
  forallb shaped ps = true ->
  forallb brace_free (keys d) = true ->
  (forall key value,
     In (key, value) d -> In (Hole key) ps -> no_open (str value) = true) ->
  personalize_template (flatten ps) d = substitute d ps.
Proof. apply personalize_substitute. Qed.

Lemma X1_witness :
  personalize_template "Dear {{firstName}} of {{company}}, {{greeting}}"
    (lead_row jane)
  = "Dear Jane of Acme Inc, {{greeting}}".
Proof.
  apply (X1_rendering_is_substitution_at_once (lead_row jane)
           [Text "Dear "; Hole "firstName"; Text " of "; Hole "company";
            Text ", "; Hole "greeting"]).
  - reflexivity.
  - reflexivity.
  - intros key value I _. cbv in I.
    decompose [or] I; try contradiction;
      match goal with E : _ = (key, value) |- _ => injection E as <- <- end;
      reflexivity.
Defined.

(** [X2] Under the same conditions rendering is idempotent: rendering the
    rendered text once more for the same lead changes nothing. *)
Theorem X2_rendering_twice_is_rendering_once
    (d : lead_data) (ps : list piece) :
  forallb shaped ps = true ->
  forallb brace_free (keys d) = true ->
  (forall key value,
     In (key, value) d -> In (Hole key) ps -> no_open (str value) = true) ->
  personalize_template (personalize_template (flatten ps) d) d
  = personalize_template (flatten ps) d.
Proof.
  intros W K V. rewrite (personalize_substitute d ps W K V).
  unfold substitute. rewrite personalize_substitute.
  - unfold substitute. now rewrite filled_twice.
  - now apply filled_shaped.
  - exact K.
  - intros key value I H. apply filled_holes in H.
    apply field_none in H. elim H. exact (in_keys _ _ _ I).
Qed.

Lemma X2_witness :
  personalize_template
    (personalize_template "Dear {{firstName}} of {{company}}, {{greeting}}"
       (lead_row jane))
    (lead_row jane)
  = personalize_template "Dear {{firstName}} of {{company}}, {{greeting}}"
      (lead_row jane).
Proof.
  apply (X2_rendering_twice_is_rendering_once (lead_row jane)
           [Text "Dear "; Hole "firstName"; Text " of "; Hole "company";
            Text ", "; Hole "greeting"]).
  - reflexivity.
  - reflexivity.
  - intros key value I _. cbv in I.
    decompose [or] I; try contradiction;
      match goal with E : _ = (key, value) |- _ => injection E as <- <- end;
      reflexivity.
Defined.

(** [X3] The preview renders the lead as the scraper stored it, the send
    loop renders the row of the data editor, which has the [Select] column
    as well: the text sent is the text previewed with every [{{Select}}]
    replaced by [True], and the two are the same text whenever the preview
    shows no [{{Select}}]. *)
Theorem X3_sent_text_is_preview_with_select_filled
    (template : string) (l : Lead) :
  personalize_template template (lead_row l)
  = replace (personalize_template template (lead_dict l))
            (placeholder "Select") "True" /\
  (contains (placeholder "Select")
            (personalize_template template (lead_dict l)) = false ->
   personalize_template template (lead_row l)
   = personalize_template template (lead_dict l)).
Proof.
  assert (E : personalize_template template (lead_row l)
              = replace (personalize_template template (lead_dict l))
                        (placeholder "Select") "True").
  { unfold lead_row. now rewrite personalize_app. }
  split; [exact E | ].
  intros C. rewrite E. apply replace_absent.
  - apply placeholder_nonempty.
  - now apply not_contains_not_occurs.
Qed.

Lemma X3_witness :
  personalize_template "Hello {{firstName}} at {{company}}" (lead_row john)
  = personalize_template "Hello {{firstName}} at {{company}}" (lead_dict john).
Proof.
  apply (X3_sent_text_is_preview_with_select_filled
           "Hello {{firstName}} at {{company}}" john).
  reflexivity.
Defined.

End ShapeFacts.

(* ===================================================================== *)
(** * More about [send_email] and the send loop *)
(* ===================================================================== *)

Module LoopFacts.
Import PyStr PyStrFacts Template Mailer MailerFacts Session Sample.
Local Open Scope py_scope.

(** ** What [send_email] leaves alone *)

Lemma roll_over_stamp (d : date) (s : session_state) :
  last_email_date (roll_over d s) = Z.max (last_email_date s) d.
Proof.
  unfold roll_over. destruct (Z.ltb_spec (last_email_date s) d);
    cbn [set_quota last_email_date]; lia.
Qed.

Lemma roll_over_logs (d : date) (s : session_state) :
  scraper_logs (roll_over d s) = scraper_logs s.
Proof. unfold roll_over. now destruct (last_email_date s <? d)%Z. Qed.

Lemma send_email_frame
    (t : tick) (recipient subject body : string) (cfg : SmtpConfig)
    (w : world) :
  let w' := snd (send_email t recipient subject body cfg w) in
  email_limit (session w') = email_limit (session w) /\
  smtp_config (session w') = smtp_config (session w) /\
  scraper_logs (session w') = scraper_logs (session w) /\
  slept w' = slept w /\
  last_email_date (session w')
  = Z.max (last_email_date (session w)) (today t).
Proof.
  cbv zeta.
  destruct (send_email_outcome t recipient subject body cfg w)
    as [L | limit L Q | limit text L Q F | limit L Q D];
    cbn [snd session slept set_quota email_limit smtp_config scraper_logs
         last_email_date];
    unfold rolled;
    rewrite ?roll_over_limit, ?roll_over_config, ?roll_over_logs,
      ?roll_over_stamp; auto.
Qed.

(** [X4] A call of [send_email] changes the counter and the date stamp
    only: the limit, the SMTP settings, the activity log and the number of
    pauses are as before, whatever the call returns or raises; and the
    date stamp never moves back, it becomes the later of the stored and
    the current date. *)
Theorem X4_send_email_touches_quota_only
    (t : tick) (recipient subject body : string) (cfg : SmtpConfig)
    (w : world) :
  let w' := snd (send_email t recipient subject body cfg w) in
  email_limit (session w') = email_limit (session w) /\
  smtp_config (session w') = smtp_config (session w) /\
  scraper_logs (session w') = scraper_logs (session w) /\
  slept w' = slept w /\
  last_email_date (session w')
  = Z.max (last_email_date (session w)) (today t).
Proof. apply send_email_frame. Qed.

(** [X5] A delivery is attempted, that is the [try] block of lines
    102-114 is entered, exactly when the limit is stored and the counter,
    after the rollover step, is below it; then exactly one attempt is made,
    for the message asked for, from the configured address, and it is noted
    whether or not it goes through (the server may refuse the connection or
    the login before any message is handed over).  A call that the limit
    check refuses, or that ends on the missing limit, attempts nothing. *)
Theorem X5_one_attempt_per_admitted_call
    (t : tick) (recipient subject body : string) (cfg : SmtpConfig)
    (w : world) :
  outbox (snd (send_email t recipient subject body cfg w))
  = match email_limit (session w) with
    | Some limit =>
        if (limit <=? email_sent_today (roll_over (today t) (session w)))%N
        then outbox w
        else (outbox w
              ++ [mkEnvelope recipient (smtp_email cfg) subject body cfg])%list
    | None => outbox w
    end.
Proof.
  destruct (send_email_outcome t recipient subject body cfg w)
    as [L | limit L Q | limit text L Q F | limit L Q D];
    cbn [snd outbox]; rewrite L; unfold rolled in *; try reflexivity.
  - destruct (N.leb_spec limit
                (email_sent_today (roll_over (today t) (session w))));
      [reflexivity | lia].
  - destruct (N.leb_spec limit
                (email_sent_today (roll_over (today t) (session w))));
      [lia | reflexivity].
  - destruct (N.leb_spec limit
                (email_sent_today (roll_over (today t) (session w))));
      [lia | reflexivity].
Qed.

(** ** One iteration, in full *)

Lemma send_one_exact (mode : send_mode) (email_subject email_template : string)
    (cfg : SmtpConfig) (n i : nat) (t : tick) (lead : Lead) (acc : tally)
    (w : world) :
  let e := dispatched mode email_subject email_template cfg lead in
  let run := send_email t (msg_to e) (msg_subject e) (msg_body e) cfg w in
  send_one mode email_subject email_template cfg n i t lead acc w
  = (Ok (recorded acc (msg_to e) (fst run)),
     mkWorld
       (set_logs
          (deque_append
             (format_log_entry t (log_message (msg_to e) (fst run)))
             (scraper_logs (session (snd run))))
          (session (snd run)))
       (outbox (snd run))
       (pauses n i (fst run) + slept (snd run))).
Proof.
  unfold dispatched, send_one.
  destruct (prepare mode email_subject email_template cfg lead)
    as [[recipient subject] body].
  cbn [msg_to msg_subject msg_body]. unfold try_except, bind.
  destruct (send_email t recipient subject body cfg w)
    as [[[[|] message]|e] w1]; cbn [fst snd recorded log_message pauses];
    unfold add_log, write, sleep, ret, set_session;
    cbn [session outbox slept];
    try destruct (i <? n - 1)%nat; reflexivity.
Qed.

(** ** The loop, whatever the server and the session are like *)

Section AnyBatch.
Variables (env : nat -> tick) (mode : send_mode).
Variables (email_subject email_template : string) (cfg : SmtpConfig).
Variable n : nat.

Local Abbreviation envelope_of :=
  (dispatched mode email_subject email_template cfg).

Local Abbreviation loop :=
  (send_loop env mode email_subject email_template cfg n).

Local Abbreviation call i lead w :=
  (send_email (env i) (msg_to (envelope_of lead))
     (msg_subject (envelope_of lead)) (msg_body (envelope_of lead)) cfg w).

(** Open the first iteration of the loop. *)
Ltac step i lead acc w :=
  cbn [send_loop]; unfold bind;
  let H := fresh in
  pose proof (send_one_exact mode email_subject email_template cfg n i (env i)
                lead acc w) as H;
  cbv zeta in H; rewrite H; clear H;
  let F := fresh "Frame" in
  pose proof (send_email_frame (env i) (msg_to (envelope_of lead))
                (msg_subject (envelope_of lead)) (msg_body (envelope_of lead))
                cfg w) as F;
  cbv zeta in F; destruct F as (FrameL & FrameC & FrameG & FrameS & FrameD).

Lemma send_loop_accounting (leads : list Lead) :
  forall (i : nat) (acc : tally) (w : world),
  exists acc' w' new,
    loop i leads acc w = (Ok acc', w') /\
    results acc' = (results acc ++ new)%list /\
    List.length new = List.length leads /\
    success_count acc' = (success_count acc + delivered_count new)%N /\
    (success_count acc' + failure_count acc'
     = success_count acc + failure_count acc
       + N.of_nat (List.length leads))%N.
Proof.
  induction leads as [|lead rest IH]; intros i acc w.
  - exists acc, w, []. cbn [send_loop ret List.length N.of_nat].
    unfold delivered_count. cbn. rewrite List.app_nil_r.
    repeat split; try lia.
  - step i lead acc w.
    match goal with
    | |- context [send_loop _ _ _ _ _ _ (S i) rest ?a ?v] =>
        destruct (IH (S i) a v) as [acc' [w' [new (E & R & Ln & Sc & Tot)]]]
    end.
    rewrite E. clear E.
    destruct (fst (call i lead w)) as [[[|] message]|e];
      cbn [recorded results success_count failure_count] in *;
      eexists acc', w', (_ :: new);
      (split; [reflexivity | ]);
      (split; [rewrite R, <- List.app_assoc; reflexivity | ]);
      (split; [cbn [List.length]; now rewrite Ln | ]);
      unfold delivered_count in *; cbn [filter succeeded List.length] in *;
      split; lia.
Qed.

(** With the limit stored, no iteration ends in the handler of line 548,
    and the loop pauses between the leads only. *)
Lemma send_loop_pauses (limit : N) (leads : list Lead) :
  forall (i : nat) (acc : tally) (w : world),
  email_limit (session w) = Some limit ->
  i + List.length leads = n ->
  exists acc' w' new,
    loop i leads acc w = (Ok acc', w') /\
    results acc' = (results acc ++ new)%list /\
    Forall (fun a => exists recipient ok message,
                       a = Returned recipient ok message) new /\
    slept w' = slept w + (List.length leads - 1).
Proof.
  induction leads as [|lead rest IH]; intros i acc w L Len.
  - exists acc, w, []. cbn [send_loop ret List.length].
    rewrite List.app_nil_r. repeat split; auto with arith.
  - step i lead acc w. cbn [List.length] in Len.
    match goal with
    | |- context [send_loop _ _ _ _ _ _ (S i) rest ?a ?v] =>
        destruct (IH (S i) a v) as [acc' [w' [new (E & R & Fa & Sl)]]];
          [ cbn [session set_logs email_limit]; congruence | lia | ]
    end.
    rewrite E. clear E. cbn [slept] in Sl.
    destruct (send_email_outcome (env i) (msg_to (envelope_of lead))
                (msg_subject (envelope_of lead)) (msg_body (envelope_of lead))
                cfg w) as [L' | lim L' Q | lim text L' Q F | lim L' Q D];
      [congruence | | | ];
      cbn [fst snd recorded results pauses slept] in *;
      eexists acc', w', (_ :: new);
      (split; [reflexivity | ]);
      (split; [rewrite R, <- List.app_assoc; reflexivity | ]);
      (split; [constructor; [eauto | exact Fa] | ]);
      rewrite Sl; cbn [List.length];
      destruct (Nat.ltb_spec i (n - 1)); destruct rest;
      cbn [List.length] in *; lia.
Qed.

(** Every iteration writes one line to the log. *)
Lemma send_loop_logs (leads : list Lead) :
  forall (i : nat) (acc : tally) (w : world),
  List.length (scraper_logs (session w)) <= 100 ->
  List.length (scraper_logs (session (snd (loop i leads acc w))))
  = Nat.min 100 (List.length (scraper_logs (session w)) + List.length leads).
Proof.
  induction leads as [|lead rest IH]; intros i acc w B.
  - cbn [send_loop ret snd List.length]. lia.
  - step i lead acc w.
    rewrite IH;
      cbn [session set_logs scraper_logs]; unfold deque_append;
      rewrite List.length_skipn, List.length_app, FrameG;
      cbn [List.length]; lia.
Qed.

End AnyBatch.

(** ** The batch *)

Section Batches.
Variables (env : nat -> tick) (mode : send_mode).
Variables (email_subject email_template : string) (cfg : SmtpConfig).

Local Abbreviation envelope_of :=
  (dispatched mode email_subject email_template cfg).

Local Abbreviation batch :=
  (send_batch env mode email_subject email_template cfg).

(** [X6] Whatever the server answers and whatever the session holds, the
    loop runs to its end without an exception: it records one attempt per
    selected lead, [success_count] is the number of attempts that ended in
    a delivery, and [success_count + failure_count] is the number of
    leads. *)
Theorem X6_every_lead_is_counted_once (leads : list Lead) (w : world) :
  exists acc w',
    batch leads w = (Ok acc, w') /\
    List.length (results acc) = List.length leads /\
    success_count acc = delivered_count (results acc) /\
    (success_count acc + failure_count acc
     = N.of_nat (List.length leads))%N.
Proof.
  unfold send_batch.
  destruct (send_loop_accounting env mode email_subject email_template cfg
              (List.length leads) leads 0 tally0 w)
    as [acc [w' [new (E & R & Ln & Sc & Tot)]]].
  exists acc, w'. cbn [tally0 results success_count failure_count] in *.
  cbn [List.app] in R. subst new. repeat split; auto; lia.
Qed.

(** [X7] With the limit stored, no iteration ends in the exception handler
    and the loop pauses between leads only: a batch of [N] leads sleeps
    [N - 1] times, none after the last lead, whether the sends succeed,
    fail or are refused. *)
Theorem X7_pause_between_leads_only
    (leads : list Lead) (w : world) (limit : N) :
  email_limit (session w) = Some limit ->
  exists acc w',
    batch leads w = (Ok acc, w') /\
    Forall (fun a => exists recipient ok message,
                       a = Returned recipient ok message) (results acc) /\
    slept w' = slept w + (List.length leads - 1).
Proof.
  intros L. unfold send_batch.
  destruct (send_loop_pauses env mode email_subject email_template cfg
              (List.length leads) limit leads 0 tally0 w L eq_refl)
    as [acc [w' [new (E & R & Fa & Sl)]]].
  exists acc, w'. cbn [tally0 results List.app] in R. subst new. auto.
Qed.

(** [X9] When the quota runs out during a batch (the server accepting
    every message, no later date read), the leads that fit below the limit
    are delivered in order and every lead behind them is refused with
    "Daily email limit reached" without the server being contacted; the
    counter ends at the limit. *)
Theorem X9_quota_runs_out_mid_batch
    (leads : list Lead) (w : world) (limit : N) :
  email_limit (session w) = Some limit ->
  (email_sent_today (session w) <= limit)%N ->
  (limit <= email_sent_today (session w) + N.of_nat (List.length leads))%N ->
  (forall i e, i < List.length leads -> smtp (env i) e = None) ->
  (forall i, i < List.length leads ->
             (today (env i) <= last_email_date (session w))%Z) ->
  let room := N.to_nat (limit - email_sent_today (session w)) in
  exists acc w' delivered,
    batch leads w = (Ok acc, w') /\
    results acc
    = (delivered
       ++ map (fun lead => Returned (msg_to (envelope_of lead)) false
                             "Daily email limit reached")
              (skipn room leads))%list /\
    List.length delivered = room /\
    Forall (fun a => succeeded a = true) delivered /\
    outbox w' = (outbox w ++ map envelope_of (firstn room leads))%list /\
    success_count acc = N.of_nat room /\
    failure_count acc = N.of_nat (List.length leads - room) /\
    email_sent_today (session w') = limit.
Proof.
  intros L Lo Hi Good Same room. unfold send_batch.
  set (n := List.length leads) in *.
  assert (Room : room <= n) by (subst room; lia).
  assert (Len1 : List.length (firstn room leads) = room).
  { rewrite List.length_firstn. fold n. lia. }
  assert (Len2 : List.length (skipn room leads) = n - room).
  { rewrite List.length_skipn. reflexivity. }
  replace (send_loop env mode email_subject email_template cfg n 0 leads
             tally0 w)
    with (send_loop env mode email_subject email_template cfg n 0
            (firstn room leads ++ skipn room leads) tally0 w)
    by now rewrite List.firstn_skipn.
  rewrite send_loop_app.
  destruct (send_loop_delivered env mode email_subject email_template cfg
              n limit (firstn room leads) 0 tally0 w L)
    as [acc1 [w1 [new1 (E1 & L1 & O1 & A1 & B1 & R1 & N1 & F1 & _ & Q1)]]].
  { rewrite Len1. subst room. lia. }
  { intros j e J. apply Good. lia. }
  destruct Q1 as [Q1 D1]. { intros j J. apply Same. lia. }
  rewrite E1, Len1. cbn [Nat.add].
  destruct (send_loop_refused env mode email_subject email_template cfg
              n limit (skipn room leads) room acc1 w1 L1)
    as [acc [w' (E2 & (S1 & S2 & S3 & S4) & C1 & C2 & C3)]].
  { rewrite Q1, Len1. subst room. lia. }
  { intros j J. rewrite D1. apply Same. lia. }
  rewrite E2. exists acc, w', new1.
  cbn [tally0 results success_count failure_count List.app] in *.
  repeat split; auto.
  - rewrite C3, R1. reflexivity.
  - congruence.
  - congruence.
  - rewrite C1, A1, Len1. lia.
  - rewrite C2, B1, Len2. lia.
  - rewrite S1, Q1, Len1. subst room. lia.
Qed.

(** [X11] The activity log is a deque of at most 100 lines and every
    iteration of the loop writes exactly one line to it: after a batch of
    [N] leads it holds [min(100, lines before + N)] lines. *)
Theorem X11_one_log_line_per_lead (leads : list Lead) (w : world) :
  List.length (scraper_logs (session w)) <= 100 ->
  List.length (scraper_logs (session (snd (batch leads w))))
  = Nat.min 100 (List.length (scraper_logs (session w)) + List.length leads).
Proof. intros B. unfold send_batch. now apply send_loop_logs. Qed.

End Batches.

(** [X10] In "Send Now" mode every message that reaches the server is
    addressed to a selected lead's own address and carries the subject and
    the body rendered for that same lead, sent from the configured
    address. *)
Theorem X10_send_now_pairs_lead_and_text
    (env : nat -> tick) (cfg : SmtpConfig) (subject template : string)
    (leads : list Lead) (w : world) :
  exists new,
    outbox (snd (send_batch env SendNow subject template cfg leads w))
    = (outbox w ++ new)%list /\
    Forall
      (fun e =>
         exists lead,
           In lead leads /\
           e = mkEnvelope (email lead) (smtp_email cfg)
                 (personalize_template subject (lead_row lead))
                 (personalize_template template (lead_row lead)) cfg)
      new.
Proof.
  unfold send_batch.
  destruct (send_loop_total env SendNow subject template cfg
              (List.length leads) leads 0 tally0 w)
    as [acc [w' [reached (E & O & I & _)]]].
  rewrite E. cbn [snd]. eexists; split; [exact O | ].
  apply Forall_forall. intros e M.
  apply in_map_iff in M as [lead [<- M]].
  exists lead. split; [now apply I | reflexivity].
Qed.

Lemma X7_witness :
  exists acc w',
    send_batch (failing_at 1 10) SendNow subject_line body_text account
      [jane; john; emma] (at_quota 49 10 50)
    = (Ok acc, w') /\
    Forall (fun a => exists recipient ok message,
                       a = Returned recipient ok message) (results acc) /\
    slept w' = 2.
Proof.
  apply (X7_pause_between_leads_only (failing_at 1 10) SendNow subject_line
           body_text account [jane; john; emma] (at_quota 49 10 50) 50%N).
  reflexivity.
Defined.

Lemma X9_witness :
  exists acc w' delivered,
    send_batch (fun _ => accepting 10) SendNow subject_line body_text account
      [jane; john; emma] (at_quota 48 10 50)
    = (Ok acc, w') /\
    results acc
    = (delivered
       ++ [Returned "emma.davis@nextgentech.com" false
                    "Daily email limit reached"])%list /\
    List.length delivered = 2 /\
    Forall (fun a => succeeded a = true) delivered /\
    outbox w'
    = map (dispatched SendNow subject_line body_text account) [jane; john] /\
    success_count acc = 2%N /\
    failure_count acc = 1%N /\
    email_sent_today (session w') = 50%N.
Proof.
  apply (X9_quota_runs_out_mid_batch (fun _ => accepting 10) SendNow
           subject_line body_text account [jane; john; emma]
           (at_quota 48 10 50) 50%N).
  - reflexivity.
  - cbn. lia.
  - cbn. lia.
  - reflexivity.
  - intros i _. cbn. lia.
Defined.

Lemma X11_witness :
  List.length
    (scraper_logs
       (session (snd (send_batch (failing_at 1 10) TestMode subject_line
                        body_text account [jane; john; emma]
                        (at_quota 7 10 50)))))
  = 3.
Proof.
  apply (X11_one_log_line_per_lead (failing_at 1 10) TestMode subject_line
           body_text account [jane; john; emma] (at_quota 7 10 50)).
  cbn. lia.
Defined.

(** ** The button and the banner *)

Lemma final_status_none (acc : tally) :
  final_status acc = NoneSent <-> success_count acc = 0%N.
Proof.
  unfold final_status.
  destruct (N.ltb_spec 0 (success_count acc));
    destruct (N.eqb_spec (failure_count acc) 0);
    destruct (N.ltb_spec 0 (failure_count acc)); cbn [andb];
    split; intros E; try discriminate; try lia; reflexivity.
Qed.

Lemma final_status_all (acc : tally) :
  final_status acc = AllSent (success_count acc)
  <-> (0 < success_count acc)%N /\ failure_count acc = 0%N.
Proof.
  unfold final_status.
  destruct (N.ltb_spec 0 (success_count acc));
    destruct (N.eqb_spec (failure_count acc) 0);
    destruct (N.ltb_spec 0 (failure_count acc)); cbn [andb];
    split; intros E; try discriminate; try lia; try reflexivity;
    split; lia.
Qed.

(** [X12] The button never lets an exception out.  Without stored SMTP
    settings it attempts nothing and leaves the session, the outbox and the
    pauses as they are.  With settings it runs the whole batch and shows a
    banner computed from the counters, which add up to the number of
    leads: the error banner exactly when no lead was delivered, the success
    banner exactly when at least one was and none failed. *)
Theorem X12_button_reports_what_the_loop_counted
    (env : nat -> tick) (mode : send_mode)
    (email_subject email_template : string) (leads : list Lead) (w : world) :
  exists r w',
    send_selected env mode email_subject email_template leads w = (Ok r, w') /\
    match smtp_config (session w) with
    | None => r = None /\ w' = w
    | Some cfg =>
        exists acc,
          r = Some (acc, final_status acc) /\
          send_batch env mode email_subject email_template cfg leads w
          = (Ok acc, w') /\
          (success_count acc + failure_count acc
           = N.of_nat (List.length leads))%N /\
          (final_status acc = NoneSent <-> success_count acc = 0%N) /\
          (final_status acc = AllSent (success_count acc)
           <-> (0 < success_count acc)%N /\ failure_count acc = 0%N)
    end.
Proof.
  unfold send_selected, bind, read, ret.
  destruct (smtp_config (session w)) as [cfg|].
  - assert (A := send_loop_accounting env mode email_subject email_template
                   cfg (List.length leads) leads 0 tally0 w).
    destruct A as [acc [w' [new (E & _ & _ & _ & Tot)]]].
    fold (send_batch env mode email_subject email_template cfg leads) in E.
    rewrite E. exists (Some (acc, final_status acc)), w'.
    split; [reflexivity | ]. exists acc.
    cbn [tally0 success_count failure_count] in Tot.
    split; [reflexivity | ]. split; [reflexivity | ].
    split; [lia | ].
    split; [apply final_status_none | apply final_status_all].
  - exists None, w. auto.
Qed.

(** [X13] "Reset Session" gives the day's quota back: it sets the counter
    to 0 whatever it was, so once the limit is stored again the next call of
    [send_email] on any date is admitted and, if the server accepts the
    message, succeeds with the counter at 1; until SMTP settings are stored
    again the button attempts nothing. *)
Theorem X13_reset_session_gives_quota_back
    (t : tick) (recipient subject body : string) (cfg : SmtpConfig)
    (w : world) (d : date) (limit : N) :
  (1 <= limit)%N ->
  smtp t (mkEnvelope recipient (smtp_email cfg) subject body cfg) = None ->
  let fresh :=
    mkWorld (configure_limit limit (reset_session d (session w)))
            (outbox w) (slept w) in
  send_email t recipient subject body cfg fresh
  = (Ok (true, confirmation recipient 1 limit),
     mkWorld (mkSession 1 (Z.max d (today t)) (Some limit) None [])
             (outbox w
              ++ [mkEnvelope recipient (smtp_email cfg) subject body cfg])
             (slept w)) /\
  (forall env mode email_subject email_template leads,
     send_selected env mode email_subject email_template leads fresh
     = (Ok None, fresh)).
Proof.
  intros Lim D fresh. split; [ | reflexivity].
  assert (R : rolled t fresh
              = mkSession 0 (Z.max d (today t)) (Some limit) None []).
  { unfold rolled, roll_over, fresh.
    cbn [session configure_limit reset_session last_email_date
         email_sent_today email_limit smtp_config scraper_logs set_quota].
    destruct (Z.ltb_spec d (today t));
      cbn [set_quota last_email_date email_sent_today email_limit
           smtp_config scraper_logs];
      unfold set_quota, configure_limit, reset_session;
      cbn [last_email_date email_sent_today email_limit smtp_config
           scraper_logs]; f_equal; lia. }
  rewrite (send_email_delivered t recipient subject body cfg fresh limit);
    [ | reflexivity | rewrite R; cbn; lia | exact D ].
  rewrite R. reflexivity.
Qed.

Lemma X13_witness :
  fst (send_email (accepting 10) "jane.smith@acmeinc.com" "Hello" "<p>Hi</p>"
         account
         (mkWorld (configure_limit 50
                     (reset_session 10 (session (at_quota 50 10 50))))
                  [] 0))
  = Ok (true, "Email sent to jane.smith@acmeinc.com. (1/50 sent today)").
Proof.
  exact (f_equal fst
           (proj1 (X13_reset_session_gives_quota_back (accepting 10)
                     "jane.smith@acmeinc.com" "Hello" "<p>Hi</p>" account
                     (at_quota 50 10 50) 10%Z 50%N
                     ltac:(discriminate) eq_refl))).
Defined.

End LoopFacts.

(* ===================================================================== *)
(** * The simulated scraper and the leads it makes *)
(* ===================================================================== *)

Module ScraperFacts.
Import PyStr PyStrFacts Template TemplateFacts Shape ShapeFacts Scraper.
Import Mailer.

(** ** The loop *)

Lemma map_seq_from {A : Type} (g : nat -> A) (a len : nat) :
  forall s, map (fun i => g (a + i)) (seq s len) = map g (seq (a + s) len).
Proof.
  induction len as [|len IH]; intros s; [reflexivity | ].
  cbn [seq map]. f_equal. rewrite IH. now rewrite Nat.add_succ_r.
Qed.

(** The number of turns of the loop for [x] leads still to make. *)
Lemma turns_step (x : nat) :
  1 <= x -> (x + 4) / 5 = S ((x - Nat.min 5 x + 4) / 5).
Proof.
  intros H. destruct (Nat.le_gt_cases 5 x) as [G|G].
  - rewrite Nat.min_l by exact G.
    replace (x + 4) with ((x - 5 + 4) + 1 * 5) by lia.
    rewrite Nat.div_add by lia. lia.
  - rewrite Nat.min_r by lia. rewrite Nat.sub_diag.
    destruct x as [|[|[|[|[|x]]]]]; try lia; reflexivity.
Qed.

Lemma scrape_loop_result (rng : nat -> draws) (total_leads : nat) :
  forall (fuel scraped : nat) (leads : list Lead) (log : list string),
  scraped <= total_leads ->
  total_leads - scraped <= fuel ->
  leads = map (fun j => make_lead (rng j)) (seq 0 scraped) ->
  exists progress,
    scrape_loop fuel rng total_leads scraped leads log
    = Some (map (fun j => make_lead (rng j)) (seq 0 total_leads),
            (log ++ progress)%list) /\
    List.length progress = (total_leads - scraped + 4) / 5.
Proof.
  induction fuel as [|fuel IH]; intros scraped leads log Le Fu E.
  - assert (scraped = total_leads) by lia. subst scraped.
    cbn [scrape_loop]. rewrite Nat.ltb_irrefl. exists [].
    rewrite List.app_nil_r, Nat.sub_diag. now subst leads.
  - cbn [scrape_loop]. destruct (Nat.ltb_spec scraped total_leads) as [Lt|Ge].
    + set (batch_size := Nat.min 5 (total_leads - scraped)).
      assert (B : 1 <= batch_size <= total_leads - scraped)
        by (subst batch_size; lia).
      match goal with
      | |- context [scrape_loop fuel rng total_leads _ ?l ?g] =>
          destruct (IH (scraped + batch_size) l g) as [progress [R Len]];
            [lia | lia | | ]
      end.
      * subst leads. rewrite List.length_map, List.length_seq.
        rewrite (map_seq_from (fun j => make_lead (rng j))).
        rewrite Nat.add_0_r, <- List.map_app.
        now rewrite (List.seq_app scraped batch_size 0).
      * rewrite R. eexists (_ :: progress). split.
        -- now rewrite <- List.app_assoc.
        -- cbn [List.length]. rewrite Len.
           rewrite (turns_step (total_leads - scraped)) by lia.
           subst batch_size. f_equal. f_equal. lia.
    + assert (scraped = total_leads) by lia. subst scraped.
      exists []. rewrite List.app_nil_r, Nat.sub_diag. now subst leads.
Qed.

(** ** The leads *)

Lemma choice_in (r : nat) (l : list string) : l <> [] -> In (choice r l) l.
Proof.
  intros N. unfold choice. apply nth_In. apply Nat.mod_upper_bound.
  destruct l; [congruence | discriminate].
Qed.

Lemma brace_free_app (s t : string) :
  brace_free (s ++ t) = (brace_free s && brace_free t)%bool.
Proof.
  induction s as [|c s IH]; cbn [String.append brace_free]; [reflexivity | ].
  now rewrite IH, andb_assoc.
Qed.

Lemma brace_free_no_open (s : string) :
  brace_free s = true -> no_open s = true.
Proof.
  induction s as [|c s IH]; cbn [brace_free no_open]; [reflexivity | ].
  rewrite !andb_true_iff. intros [[O _] B]. auto.
Qed.

Lemma digits_brace_free (u : Decimal.uint) :
  brace_free (NilEmpty.string_of_uint u) = true.
Proof. induction u; cbn [NilEmpty.string_of_uint brace_free]; auto. Qed.

Lemma decimal_brace_free (n : N) : brace_free (decimal n) = true.
Proof.
  unfold decimal, NilZero.string_of_uint.
  destruct (N.to_uint n) eqn:E; try reflexivity;
    rewrite <- E; apply digits_brace_free.
Qed.

Lemma first_names_plain :
  forallb (fun f => brace_free f && brace_free (lower f)) first_names = true.
Proof. vm_compute. reflexivity. Qed.

Lemma last_names_plain :
  forallb (fun l => brace_free l && brace_free (lower l)) last_names = true.
Proof. vm_compute. reflexivity. Qed.

Lemma other_names_plain :
  forallb brace_free sample_companies = true /\
  forallb brace_free sample_positions = true /\
  forallb brace_free sample_locations = true.
Proof. vm_compute. auto. Qed.

Lemma addresses_plain :
  forallb
    (fun f =>
       forallb
         (fun l =>
            forallb
              (fun c =>
                 let e := lower f ++ "." ++ lower l ++ "@"
                          ++ replace (lower c) " " "" ++ ".com" in
                 brace_free e && negb (contains " " e)
                 && String.eqb (lower e) e)
              sample_companies)
         last_names)
    first_names = true.
Proof. vm_compute. reflexivity. Qed.

Section Lead.
Variable r : draws.

Local Abbreviation first_name := (choice (draw_first r) first_names).
Local Abbreviation last_name := (choice (draw_last r) last_names).
Local Abbreviation company_name := (choice (draw_company r) sample_companies).

Lemma first_name_plain :
  brace_free first_name = true /\ brace_free (lower first_name) = true.
Proof.
  apply andb_true_iff.
  apply (proj1 (forallb_forall _ _) first_names_plain).
  apply choice_in. discriminate.
Qed.

Lemma last_name_plain :
  brace_free last_name = true /\ brace_free (lower last_name) = true.
Proof.
  apply andb_true_iff.
  apply (proj1 (forallb_forall _ _) last_names_plain).
  apply choice_in. discriminate.
Qed.

Lemma address_plain :
  brace_free (email (make_lead r)) = true /\
  contains " " (email (make_lead r)) = false /\
  lower (email (make_lead r)) = email (make_lead r).
Proof.
  pose proof addresses_plain as A.
  rewrite forallb_forall in A.
  specialize (A first_name
                (choice_in (draw_first r) first_names ltac:(discriminate))).
  rewrite forallb_forall in A.
  specialize (A last_name
                (choice_in (draw_last r) last_names ltac:(discriminate))).
  rewrite forallb_forall in A.
  specialize (A company_name
                (choice_in (draw_company r) sample_companies
                   ltac:(discriminate))).
  cbv zeta in A. apply andb_true_iff in A as [A E].
  apply andb_true_iff in A as [B C].
  apply negb_true_iff in C. apply String.eqb_eq in E.
  cbn [make_lead email]. auto.
Qed.

Lemma make_lead_values (key : string) (value : pyval) :
  In (key, value) (lead_row (make_lead r)) -> brace_free (str value) = true.
Proof.
  destruct first_name_plain as [F Fl]. destruct last_name_plain as [L Ll].
  destruct other_names_plain as (C & P & G).
  rewrite forallb_forall in C, P, G.
  destruct address_plain as (E & _ & _).
  unfold lead_row, lead_dict. cbn [List.app In make_lead firstName lastName
    fullName position company location profileUrl email] in *.
  intros I. decompose [or] I; try contradiction;
    match goal with H : _ = (key, value) |- _ => injection H as <- <- end;
    cbn [str]; auto.
  - rewrite brace_free_app, F. cbn [brace_free]. rewrite L. reflexivity.
  - apply P, choice_in. discriminate.
  - apply C, choice_in. discriminate.
  - apply G, choice_in. discriminate.
  - repeat (rewrite brace_free_app || cbn [brace_free]).
    rewrite Fl, Ll, decimal_brace_free. reflexivity.
Qed.

End Lead.

(** [X15] Whatever the random draws, a lead made by the scraper has no
    brace in any of its values, so none of them can be taken for a
    placeholder; its e-mail address has no space and no capital letter in
    it, though company names such as "Acme Inc" have both. *)
Theorem X15_scraped_lead_is_plain_text (r : draws) :
  forallb (fun item => brace_free (str (snd item))) (lead_row (make_lead r))
  = true /\
  contains " " (email (make_lead r)) = false /\
  lower (email (make_lead r)) = email (make_lead r).
Proof.
  split; [ | apply address_plain ].
  apply forallb_forall. intros [key value] I.
  exact (make_lead_values r key value I).
Qed.

End ScraperFacts.

(* ===================================================================== *)
(** * From the scraper to the text of the mail *)
(* ===================================================================== *)

Module DefaultMail.
Import PyStr PyStrFacts Template TemplateFacts Shape ShapeFacts.
Import Mailer Scraper ScraperFacts Sample.

Lemma flatten_no_open (ps : list piece) :
  forallb shaped ps = true ->
  (forall name, ~ In (Hole name) ps) ->
  no_open (flatten ps) = true.
Proof.
  induction ps as [|[s|name] ps IH]; intros W H; [reflexivity | | ].
  - cbn [forallb shaped] in W. apply andb_true_iff in W as [W1 W2].
    cbn [flatten]. rewrite no_open_app, W1, IH; auto.
    intros name I. apply (H name). now right.
  - elim (H name). now left.
Qed.

Lemma personalize_complete (d : lead_data) (ps : list piece) :
  forallb shaped ps = true ->
  forallb brace_free (keys d) = true ->
  (forall key value,
     In (key, value) d -> In (Hole key) ps -> no_open (str value) = true) ->
  (forall name, In (Hole name) ps -> field d name <> None) ->
  no_open (personalize_template (flatten ps) d) = true.
Proof.
  intros W K V F. rewrite (personalize_substitute d ps W K V).
  unfold substitute. apply flatten_no_open.
  - now apply filled_shaped.
  - intros name I. pose proof (filled_holes d ps name I) as N.
    assert (H : In (Hole name) ps).
    { clear - I N. induction ps as [|[s|x] ps IH]; cbn [map filled In] in *;
        [tauto | | ].
      - destruct I as [E|I]; [discriminate | auto].
      - destruct (field d x) as [v|] eqn:Fx.
        + destruct I as [E|I]; [discriminate | auto].
        + destruct I as [E|I]; [left; congruence | auto]. }
    exact (F name H N).
Qed.

(** [X16] When every placeholder of the template names a field of the
    lead (the template being text without opening braces and placeholders
    with brace-free names, the field names brace-free, the values put in
    without opening brace), the rendered text has no opening brace left:
    no placeholder stays in the mail. *)
Theorem X16_no_placeholder_left_when_all_are_fields
    (d : lead_data) (ps : list piece) :
  forallb shaped ps = true ->
  forallb brace_free (keys d) = true ->
  (forall key value,
     In (key, value) d -> In (Hole key) ps -> no_open (str value) = true) ->
  (forall name, In (Hole name) ps -> field d name <> None) ->
  no_open (personalize_template (flatten ps) d) = true.
Proof. apply personalize_complete. Qed.

Lemma X16_witness :
  no_open (personalize_template "Dear {{firstName}} of {{company}}"
             (lead_row jane)) = true.
Proof.
  apply (X16_no_placeholder_left_when_all_are_fields (lead_row jane)
           [Text "Dear "; Hole "firstName"; Text " of "; Hole "company"]).
  - reflexivity.
  - reflexivity.
  - intros key value I _. cbv in I.
    decompose [or] I; try contradiction;
      match goal with E : _ = (key, value) |- _ => injection E as <- <- end;
      reflexivity.
  - intros name I. cbv in I.
    decompose [or] I; try contradiction; try discriminate;
      match goal with E : Hole _ = Hole name |- _ => injection E as <- end;
      discriminate.
Defined.

(** The default subject and body for a lead whose first name, position
    and company have no opening brace. *)
Lemma default_mail_for (l : Lead) (d : lead_data) :
  d = lead_row l \/ d = lead_dict l ->
  no_open (firstName l) = true ->
  no_open (position l) = true ->
  no_open (company l) = true ->
  personalize_template "Connecting with {{company}}" d
  = "Connecting with " ++ company l /\
  personalize_template (flatten default_template) d
  = substitute (lead_dict l) default_template /\
  no_open (substitute (lead_dict l) default_template) = true.
Proof.
  intros D F P C.
  assert (V : forall ps key value,
            (forall name, In (Hole name) ps ->
                          name = "firstName" \/ name = "position"
                          \/ name = "company") ->
            In (key, value) d -> In (Hole key) ps ->
            no_open (str value) = true).
  { intros ps key value Names I H. specialize (Names key H).
    destruct D; subst d; cbv [lead_row lead_dict List.app In] in I;
      decompose [or] I; try contradiction;
      match goal with E : _ = (key, value) |- _ => injection E as <- <- end;
      decompose [or] Names; try discriminate; assumption. }
  assert (K : forallb brace_free (keys d) = true)
    by (destruct D; subst d; reflexivity).
  assert (Nb : forall name, In (Hole name) default_template ->
                            name = "firstName" \/ name = "position"
                            \/ name = "company").
  { intros name I. cbv [default_template In] in I.
    decompose [or] I; try contradiction; try discriminate;
      match goal with E : Hole _ = Hole name |- _ => injection E as <- end;
      auto. }
  assert (Ns : forall name, In (Hole name) default_subject ->
                            name = "firstName" \/ name = "position"
                            \/ name = "company").
  { intros name I. cbv [default_subject In] in I.
    decompose [or] I; try contradiction; try discriminate;
      match goal with E : Hole _ = Hole name |- _ => injection E as <- end;
      auto. }
  assert (Sd : substitute d default_template
               = substitute (lead_dict l) default_template)
    by (destruct D; subst d; reflexivity).
  pose proof (fun key value => V default_subject key value Ns) as Vs.
  pose proof (fun key value => V default_template key value Nb) as Vb.
  split; [ | split].
  - change "Connecting with {{company}}" with (flatten default_subject).
    rewrite (personalize_substitute d default_subject eq_refl K Vs).
    destruct D; subst d; unfold substitute; cbn [default_subject map filled];
      cbn; now rewrite PyStrFacts.app_nil_r.
  - rewrite (personalize_substitute d default_template eq_refl K Vb).
    exact Sd.
  - rewrite <- Sd.
    rewrite <- (personalize_substitute d default_template eq_refl K Vb).
    apply personalize_complete; [reflexivity | exact K | exact Vb | ].
    intros name I.
    destruct (Nb name I) as [ E | [ E | E ] ]; subst name;
      destruct D; subst d; discriminate.
Qed.

Lemma simulate_scraping_leads (rng : nat -> draws) (lead_count : nat)
    (leads : list Lead) (log : list string) :
  simulate_scraping rng lead_count = Some (leads, log) ->
  leads = map (fun j => make_lead (rng j)) (seq 0 lead_count).
Proof.
  unfold simulate_scraping.
  destruct (scrape_loop_result rng lead_count lead_count 0 []
              [ "Initializing LinkedIn Sales Navigator scraper...";
                "Authenticating with LinkedIn...";
                "Starting search query..." ])
    as [progress [R _]]; [lia | lia | reflexivity | ].
  rewrite R. intros E. now injection E as <- _.
Qed.

(** [X17] Every lead the scraper stores goes through the default mail as
    intended, whatever the random draws: the default subject renders to
    "Connecting with " followed by the lead's company, the default body to
    the body with first name, position and company put in, the preview and
    the text sent are the same, and no placeholder is left in the body. *)
Theorem X17_default_mail_for_scraped_leads
    (rng : nat -> draws) (lead_count : nat) (leads : list Lead)
    (log : list string) (l : Lead) :
  simulate_scraping rng lead_count = Some (leads, log) ->
  In l leads ->
  personalize_template "Connecting with {{company}}" (lead_row l)
  = "Connecting with " ++ company l /\
  personalize_template "Connecting with {{company}}" (lead_dict l)
  = "Connecting with " ++ company l /\
  personalize_template (flatten default_template) (lead_row l)
  = substitute (lead_dict l) default_template /\
  personalize_template (flatten default_template) (lead_dict l)
  = substitute (lead_dict l) default_template /\
  no_open (substitute (lead_dict l) default_template) = true.
Proof.
  intros Run I. apply simulate_scraping_leads in Run. subst leads.
  apply in_map_iff in I as [j [<- _]].
  set (r := rng j).
  assert (F : no_open (firstName (make_lead r)) = true).
  { apply brace_free_no_open.
    apply (make_lead_values r "firstName" (PStr (firstName (make_lead r)))).
    unfold lead_row, lead_dict. cbn [List.app In]. auto. }
  assert (P : no_open (position (make_lead r)) = true).
  { apply brace_free_no_open.
    apply (make_lead_values r "position" (PStr (position (make_lead r)))).
    unfold lead_row, lead_dict. cbn [List.app In]. auto 6. }
  assert (C : no_open (company (make_lead r)) = true).
  { apply brace_free_no_open.
    apply (make_lead_values r "company" (PStr (company (make_lead r)))).
    unfold lead_row, lead_dict. cbn [List.app In]. auto 7. }
  destruct (default_mail_for (make_lead r) (lead_row (make_lead r))
              (or_introl eq_refl) F P C) as (S1 & B1 & N1).
  destruct (default_mail_for (make_lead r) (lead_dict (make_lead r))
              (or_intror eq_refl) F P C) as (S2 & B2 & _).
  auto.
Qed.

Lemma X17_witness :
  personalize_template "Connecting with {{company}}"
    (lead_row (make_lead (sample_draws 1)))
  = "Connecting with TechGiant".
Proof.
  apply (X17_default_mail_for_scraped_leads sample_draws 2
           (map (fun j => make_lead (sample_draws j)) (seq 0 2))
           (match simulate_scraping sample_draws 2 with
            | Some (_, log) => log
            | None => []
            end)
           (make_lead (sample_draws 1))).
  - vm_compute. reflexivity.
  - right. left. reflexivity.
Defined.

(** The default mail for one scraped lead, written out. *)
Example default_subject_and_greeting :
  let l := make_lead (sample_draws 0) in
  (firstName l, company l, email l)
  = ("John", "Acme Inc", "john.johnson@acmeinc.com") /\
  personalize_template "Connecting with {{company}}" (lead_row l)
  = "Connecting with Acme Inc" /\
  prefix (nl ++ "    <p>Hello John,</p>")
         (personalize_template (flatten default_template) (lead_row l))
  = true.
Proof. vm_compute. auto. Qed.

End DefaultMail.
